(** * Brain tumour classification demo: a Rocq model of [streamlit_app.py]

    The development follows the script top to bottom: resolution of the API
    key, the model provisioner [download_models], the preprocessing of an
    upload, the choice of the reported label, and the saliency renderer
    [generate_saliency_map].

    Conventions of the embedding.
    - Python [int] is [Z]; indices into lists are [nat].
    - A finite floating-point value is the rational number it denotes, so
      float arrays are lists of [Q]; arithmetic on them is exact.
    - [uint8] data is a [Z] kept in [0, 255] by the operations that produce it.
    - A numpy array of rank 2 is a list of rows; rank 3 adds the channel axis.
    - An exception is a value of [exn]; code that can raise returns [exn + A].
    - Calls into TensorFlow, Keras, OpenCV, gdown and Streamlit are the
      variables of [Section App]. *)

From Stdlib Require Import QArith Qround Qabs Lqa ZArith Lia.
From Stdlib.Strings Require Import Byte Ascii String.
From stdpp Require Import gmap strings list fin_maps sorting.

Set Warnings "-clear-no-such-hyp".

Open Scope string_scope.
Open Scope list_scope.

(** ** Exceptions *)

Inductive exn : Type :=
  | KeyError (key : string)
  | AttributeError (attr : string)
  | ValueError (msg : string)
  | IndexError (msg : string)
  | LibraryError (msg : string).

(** The error monad of code that can raise. *)
Global Instance result_ret : MRet (sum exn) := λ A a, inr a.
Global Instance result_bind : MBind (sum exn) := λ A B f m,
  match m with inl e => inl e | inr a => f a end.
Global Instance result_fmap : FMap (sum exn) := λ A B f m,
  match m with inl e => inl e | inr a => inr (f a) end.

Definition raise {A} (e : exn) : exn + A := inl e.

(** ** Numbers and arrays *)

Definition Qlt_bool (x y : Q) : bool := negb (Qle_bool y x).

(** Conversion of a float to an integer type truncates toward zero. *)
Definition Qtrunc (x : Q) : Z := Z.quot (Qnum x) (Zpos (Qden x)).

(** [astype(np.uint8)] and [np.uint8(...)]: truncate, keep the low 8 bits. *)
Definition np_uint8 (x : Q) : Z := ((Qtrunc x) mod 256)%Z.

Abbreviation Array1 := (list Q).
Abbreviation Array2 := (list (list Q)).
Abbreviation Array3 := (list (list (list Q))).
Abbreviation Tensor4 := (list (list (list (list Q)))).
Abbreviation U8Array2 := (list (list Z)).
Abbreviation U8Array3 := (list (list (list Z))).
Abbreviation Mask := (list (list bool)).

(** [a.shape] of a rank-2 array. *)
Definition shape2 {A} (a : list (list A)) : nat * nat :=
  (length a, length (hd [] a)).

(** Every row has the same length: what numpy guarantees of an [h]x[w] array. *)
Definition rectangular {A} (h w : nat) (a : list (list A)) : Prop :=
  length a = h ∧ Forall (λ row, length row = w) a.

Global Instance rectangular_dec {A} (h w : nat) (a : list (list A)) :
  Decision (rectangular h w a).
Proof. unfold rectangular. apply _. Defined.

(** [a.max()] and [a.min()] of a rank-1 array; numpy raises on an empty one. *)
Definition np_max (a : Array1) : exn + Q :=
  match a with
  | [] => raise (ValueError "zero-size array to reduction operation maximum which has no identity")
  | x :: a' => inr (foldl (λ m y, if Qlt_bool m y then y else m) x a')
  end.

Definition np_min (a : Array1) : exn + Q :=
  match a with
  | [] => raise (ValueError "zero-size array to reduction operation minimum which has no identity")
  | x :: a' => inr (foldl (λ m y, if Qlt_bool y m then y else m) x a')
  end.

(** [np.argmax]: the first index that holds the maximum. *)
Fixpoint argmax_from (best : Q) (besti i : nat) (v : Array1) : nat :=
  match v with
  | [] => besti
  | x :: v' =>
      if Qlt_bool best x then argmax_from x i (S i) v'
      else argmax_from best besti (S i) v'
  end.

Definition np_argmax (v : Array1) : exn + nat :=
  match v with
  | [] => raise (ValueError "attempt to get argmax of an empty sequence")
  | x :: v' => inr (argmax_from x 0 1 v')
  end.

(** Division of floats. A zero denominator gives no finite value (numpy
    answers inf or nan and warns); the model reports it as an error so that
    its absence can be stated. *)
Definition np_true_divide (a b : Q) : exn + Q :=
  if Qeq_bool b 0%Q then raise (LibraryError "divide by zero encountered in divide")
  else inr (a / b)%Q.

(** [np.sort] and [np.percentile] with the default linear interpolation:
    the virtual index is [(n - 1) * q / 100]; the result lies between the
    two sorted neighbours of that index. *)
Fixpoint insert_sorted (x : Q) (l : Array1) : Array1 :=
  match l with
  | [] => [x]
  | y :: l' => if Qle_bool x y then x :: l else y :: insert_sorted x l'
  end.

Definition np_sort (a : Array1) : Array1 := foldr insert_sorted [] a.

Definition interpolate (sorted : Array1) (q : Q) : Q :=
  let n := length sorted in
  let virtual_index := (inject_Z (Z.of_nat (n - 1)) * (q / 100))%Q in
  let previous := Z.to_nat (Qfloor virtual_index) in
  let next := Nat.min (S previous) (n - 1) in
  let gamma := (virtual_index - inject_Z (Z.of_nat previous))%Q in
  let lo := nth previous sorted 0%Q in
  let hi := nth next sorted 0%Q in
  (lo + (hi - lo) * gamma)%Q.

Definition np_percentile (a : Array1) (q : Q) : exn + Q :=
  match a with
  | [] => raise (LibraryError "percentile of an empty array")
  | _ :: _ => inr (interpolate (np_sort a) q)
  end.

(** ** The circular region of interest (lines 69-74) *)

(** [center = (shape[0]//2, shape[1]//2)]. *)
Definition center (shape : nat * nat) : Z * Z :=
  ((Z.of_nat shape.1 / 2)%Z, (Z.of_nat shape.2 / 2)%Z).

(** [radius = min(center[0], center[1]) - 10]. *)
Definition radius (c : Z * Z) : Z := (Z.min c.1 c.2 - 10)%Z.

(** One entry of [(x - center[0])**2 + (y - center[1])**2 <= radius**2];
    [y] is the row and [x] the column, as [np.ogrid] yields them. *)
Definition in_circle (c : Z * Z) (r : Z) (y x : Z) : bool :=
  ((x - c.1) ^ 2 + (y - c.2) ^ 2 <=? r ^ 2)%Z.

Definition circular_mask (shape : nat * nat) : Mask :=
  let c := center shape in
  let r := radius c in
  map (λ y, map (λ x, in_circle c r (Z.of_nat y) (Z.of_nat x)) (seq 0 shape.2))
      (seq 0 shape.1).

(** [gradients * mask]: a boolean counts as 1 or 0. *)
Definition mask_factor (b : bool) : Q := if b then 1%Q else 0%Q.

Definition np_multiply_mask (g : Array2) (mask : Mask) : Array2 :=
  zip_with (zip_with (λ x b, (x * mask_factor b)%Q)) g mask.

(** [gradients[mask]]: the selected entries in row-major order. *)
Fixpoint select_row (m : list bool) (row : Array1) : Array1 :=
  match m, row with
  | b :: m', x :: row' =>
      if b then x :: select_row m' row' else select_row m' row'
  | _, _ => []
  end.

Definition boolean_index (g : Array2) (mask : Mask) : Array1 :=
  mjoin (zip_with select_row mask g).

(** [gradients[mask] = values]: the selected entries are replaced in
    row-major order; numpy raises unless the values are used up exactly. *)
Fixpoint assign_row (m : list bool) (row vs : Array1) : option (Array1 * Array1) :=
  match m, row with
  | b :: m', x :: row' =>
      if b then
        match vs with
        | v :: vs' => '(row2, rest) ← assign_row m' row' vs'; Some (v :: row2, rest)
        | [] => None
        end
      else '(row2, rest) ← assign_row m' row' vs; Some (x :: row2, rest)
  | _, _ => Some (row, vs)
  end.

Fixpoint assign_rows (mask : Mask) (g : Array2) (vs : Array1) : option (Array2 * Array1) :=
  match mask, g with
  | m :: mask', row :: g' =>
      '(row2, rest) ← assign_row m row vs;
      '(g2, rest') ← assign_rows mask' g' rest;
      Some (row2 :: g2, rest')
  | _, _ => Some (g, vs)
  end.

Definition boolean_assign (g : Array2) (mask : Mask) (vs : Array1) : exn + Array2 :=
  match assign_rows mask g vs with
  | Some (g', []) => inr g'
  | _ => raise (ValueError "NumPy boolean array indexing assignment cannot assign the input values to the output values where the mask is true")
  end.

(** ** Normalisation and threshold (lines 76-83) *)

(** Lines 76-78: min-max normalisation of the values inside the mask,
    guarded by [max > min]. *)
Definition normalize_brain (brain_gradients : Array1) : exn + Array1 :=
  mx ← np_max brain_gradients;
  mn ← np_min brain_gradients;
  if Qlt_bool mn mx then
    mapM (λ x, np_true_divide (x - mn)%Q (mx - mn)%Q) brain_gradients
  else inr brain_gradients.

(** Line 83: [gradients[gradients < threshold] = 0]. *)
Definition zero_below (threshold : Q) (g : Array2) : Array2 :=
  map (map (λ x, if Qlt_bool x threshold then 0%Q else x)) g.

(** Lines 74-80: the gradient image after masking and normalisation. *)
Definition normalize_in_mask (gradients : Array2) (mask : Mask) : exn + Array2 :=
  let gradients := np_multiply_mask gradients mask in
  brain_gradients ← normalize_brain (boolean_index gradients mask);
  boolean_assign gradients mask brain_gradients.

(** Lines 82-83. *)
Definition threshold_top (gradients : Array2) (mask : Mask) : exn + Array2 :=
  threshold ← np_percentile (boolean_index gradients mask) 80%Q;
  inr (zero_below threshold gradients).

(** Lines 69-83 in one piece. *)
Definition saliency_core (gradients : Array2) : exn + Array2 :=
  let mask := circular_mask (shape2 gradients) in
  gradients ← normalize_in_mask gradients mask;
  threshold_top gradients mask.

(** ** Images *)

(** A decoded RGB picture as PIL holds it: rows of pixels, three bytes each. *)
Abbreviation PILImage := (list (list (byte * byte * byte))).

Definition byte_to_Q (b : byte) : Q := inject_Z (Z.of_N (Byte.to_N b)).

(** [image.img_to_array]: the float array of shape (height, width, 3). *)
Definition img_to_array (img : PILImage) : Array3 :=
  map (map (λ '(r, g, b), [byte_to_Q r; byte_to_Q g; byte_to_Q b])) img.

(** [np.expand_dims(a, axis=0)]. *)
Definition np_expand_dims {A} (a : A) : list A := [a].

(** [img_array /= 255.0]. *)
Definition scale_255 (t : Tensor4) : Tensor4 :=
  map (map (map (map (λ x, (x / 255)%Q)))) t.

(** The shape of a rank-4 tensor, and a bound on all its entries. *)
Definition has_shape4 {A} (n h w c : nat) (t : list (list (list (list A)))) : Prop :=
  length t = n ∧
  Forall (λ a, length a = h ∧
     Forall (λ row, length row = w ∧ Forall (λ px, length px = c) row) a) t.

Definition Forall4 {A} (P : A → Prop) (t : list (list (list (list A)))) : Prop :=
  Forall (Forall (Forall (Forall P))) t.

(** [cv2.cvtColor] with [COLOR_BGR2RGB] or [COLOR_RGB2BGR]: the first and
    the third channel change places. *)
Definition swap_channels (px : list Z) : list Z :=
  match px with
  | [c0; c1; c2] => [c2; c1; c0]
  | _ => px
  end.

Definition cv2_cvtColor_swap (a : U8Array3) : U8Array3 := map (map swap_channels) a.

(** [np.uint8(255 * gradients)]. *)
Definition to_uint8_255 (g : Array2) : U8Array2 :=
  map (map (λ x, np_uint8 (255 * x)%Q)) g.

(** Lines 92-93: [heatmap * 0.7 + original_img * 0.3], then
    [astype(np.uint8)]. The two operands must have one shape. *)
Definition blend_value (h : Z) (o : Q) : Q := (inject_Z h * 0.7 + o * 0.3)%Q.

Definition same_shape3 {A B} (a : list (list (list A))) (b : list (list (list B))) : Prop :=
  Forall2 (Forall2 (λ p q, length p = length q)) a b.

Global Instance same_shape3_dec {A B} (a : list (list (list A)))
  (b : list (list (list B))) : Decision (same_shape3 a b).
Proof. unfold same_shape3. apply _. Defined.

Definition weighted_sum (heatmap : U8Array3) (original_img : Array3) : exn + Array3 :=
  if decide (same_shape3 heatmap original_img) then
    inr (zip_with (zip_with (zip_with blend_value)) heatmap original_img)
  else raise (ValueError "operands could not be broadcast together").

Definition astype_uint8 (a : Array3) : U8Array3 := map (map (map np_uint8)) a.

(** Lines 63-65: [tf.math.abs], [tf.reduce_max(axis=-1)], and [squeeze]
    of a batch of one image of more than one row and column, which is what
    line 203 and the two display sizes give; the model covers no other
    rank. *)
Definition reduce_max_channels (t : Tensor4) : exn + list Array2 :=
  mapM (mapM (mapM (λ px, np_max (Qabs <$> px)))) t.

Definition squeeze_batch (t : list Array2) : exn + Array2 :=
  match t with
  | [a] => inr a
  | _ => raise (LibraryError "not a batch of one image")
  end.

(** ** Labels (lines 198, 208-209) *)

Definition labels : list string := ["Glioma"; "Meningioma"; "No Tumor"; "Pituitary"].

(** [seq[i]] of a Python list with a non-negative index. *)
Definition index {A} (l : list A) (i : nat) : exn + A :=
  match l !! i with
  | Some x => inr x
  | None => raise (IndexError "index out of range")
  end.

(** Lines 208-209: [class_index] and [result]. *)
Definition predicted_class (prediction0 : Array1) : exn + (nat * string) :=
  class_index ← np_argmax prediction0;
  result ← index labels class_index;
  mret (class_index, result).

(** Line 211: the text the page shows. *)
Definition predicted_class_text (result : string) : string :=
  "Predicted Class: " +:+ result.

(** ** Paths *)

Definition ends_with_slash (a : string) : bool :=
  match String.get (String.length a - 1) a with
  | Some c => Ascii.eqb c "/"%char
  | None => false
  end.

(** [os.path.join] of two components (POSIX). *)
Definition os_path_join (a b : string) : string :=
  if String.prefix "/" b then b
  else if (String.eqb a "" || ends_with_slash a)%bool then a +:+ b
  else a +:+ "/" +:+ b.

Definition output_dir : string := "saliency_maps".

(** Lines 191-196: the input size that goes with the chosen classifier. *)
Definition xception_choice : string := "Transfer Learning - Xception".

Definition img_size_of (selected_model : string) : nat * nat :=
  if String.eqb selected_model xception_choice then (299, 299)%nat
  else (224, 224)%nat.

(** ** The world the script runs in *)

Record UploadedFile := { name : string; getbuffer : list byte }.

Inductive event : Type :=
  | GenaiConfigure (api_key : option string)
  | Makedirs (path : string)
  | Spinner (text : string)
  | Download (url output : string)
  | WriteFile (path : string) (data : list byte)
  | StTitle (text : string)
  | StWrite (text : string)
  | StImage (caption : string)
  | StPlotlyChart (values : Array1).

Record world := World {
  environ : gmap string string;
  dotenv : gmap string string;
  secrets : gmap string string;
  files : gmap string (list byte);
  dirs : gset string;
  trace : list event
}.

(** State and exceptions: what was done before an exception stays done. *)
Definition App (A : Type) : Type := world → (exn + A) * world.

Global Instance app_ret : MRet App := λ A a w, (inr a, w).
Global Instance app_bind : MBind App := λ A B f m w,
  match m w with
  | (inl e, w') => (inl e, w')
  | (inr a, w') => f a w'
  end.

Definition lift {A} (r : exn + A) : App A := λ w, (r, w).

Definition emit (e : event) : App () := λ w,
  (inr (), World (environ w) (dotenv w) (secrets w) (files w) (dirs w) (trace w ++ [e])).

Definition set_environ (env : gmap string string) : App () := λ w,
  (inr (), World env (dotenv w) (secrets w) (files w) (dirs w) (trace w)).

Definition write_file (path : string) (data : list byte) : App () := λ w,
  (inr (), World (environ w) (dotenv w) (secrets w) (<[path := data]> (files w))
                 (dirs w) (trace w ++ [WriteFile path data])).

Definition read_file (path : string) : App (list byte) := λ w,
  match files w !! path with
  | Some data => (inr data, w)
  | None => (raise (LibraryError "No such file or directory"), w)
  end.

(** [os.makedirs(path, exist_ok=True)]. *)
Definition os_makedirs (path : string) : App () := λ w,
  (inr (), World (environ w) (dotenv w) (secrets w) (files w) ({[path]} ∪ dirs w)
                 (trace w ++ [Makedirs path])).

Definition os_path_exists (path : string) : App bool := λ w,
  (inr (bool_decide (path ∈ dom (files w) ∨ path ∈ dirs w)), w).

Fixpoint for_each {A} (body : A → App ()) (l : list A) : App () :=
  match l with
  | [] => mret ()
  | x :: l' => body x ;; for_each body l'
  end.

(** ** API key (lines 17-23) *)

(** [load_dotenv()] adds the entries of the [.env] file to [os.environ]
    without replacing a variable that is already set. *)
Definition load_dotenv (dotenv environ : gmap string string) : gmap string string :=
  environ ∪ dotenv.

Definition resolve_api_key (environ secrets : gmap string string)
  : exn + option string :=
  if decide ("GOOGLE_API_KEY" ∈ dom environ) then
    inr (environ !! "GOOGLE_API_KEY")
  else
    match secrets !! "GOOGLE_API_KEY" with
    | Some v => inr (Some v)
    | None => inl (KeyError "GOOGLE_API_KEY")
    end.


Definition api_key_lookup : App (option string) := λ w,
  (resolve_api_key (environ w) (secrets w), w).

(** Lines 17-23: [load_dotenv()], the lookup, [genai.configure]. *)
Definition configure_api_key : App () :=
  (λ w, set_environ (load_dotenv (dotenv w) (environ w)) w) ;;
  api_key ← api_key_lookup;
  emit (GenaiConfigure api_key).

(** ** A small instance of the libraries

    Stand-ins with the types of the library calls, used by the worked
    examples at the end: a classifier with a fixed answer, a gradient equal
    to its input, uniform grey pictures, identity resampling and blur, a
    grey colour map. [keras_image_other] is module [image] as Keras ships
    it: besides [load_img] and [img_to_array] it has no converter, and in
    particular none called [image_to_array]. *)

Definition toy_load (_ : list byte) : exn + unit := inr ().
Definition toy_predict (_ : unit) (_ : Tensor4) : list Array1 :=
  [[0.1; 0.7; 0.15; 0.05]%Q].
Definition toy_gradient (_ : unit) (t : Tensor4) (_ : nat) : exn + Tensor4 := inr t.
Definition toy_load_img (_ : UploadedFile) (size : nat * nat) : exn + PILImage :=
  inr (replicate size.1 (replicate size.2 (x80, x80, x80))).
Definition keras_image_other (_ : string) : option (PILImage → Array3) := None.
Definition patched_image_other (attr : string) : option (PILImage → Array3) :=
  if String.eqb attr "image_to_array" then Some img_to_array else None.
Definition toy_resize (a : Array2) (_ : nat * nat) : Array2 := a.
Definition toy_blur (a : Array2) (_ : nat * nat) (_ : Q) : Array2 := a.
Definition toy_colormap (a : U8Array2) : U8Array3 := map (map (λ v, [v; v; v])) a.
Definition toy_resize_u8 (a : U8Array3) (_ : nat * nat) : U8Array3 := a.
Definition toy_imencode (_ : string) (a : U8Array3) : list byte :=
  (λ v, default x00 (Byte.of_N (Z.to_N v))) <$> mjoin (mjoin a).
Definition toy_remote (url : string) : list byte :=
  if String.eqb url "https://drive.google.com/uc?id=1x9t4iiOryE2jNJ8OCcWgkbNe17YXlPnU"
  then [x01] else [x02].
Definition toy_generate_content (_ : string) (_ : list byte) : exn + string :=
  inr "explanation".
Definition toy_format (_ : nat) (_ : Q) : string := "0.0000".

Definition empty_world : world := World ∅ ∅ ∅ ∅ ∅ [].

(** Three ways to hold the key, and a disk where one weight file is cached. *)
Definition env_world : world :=
  World {[ "GOOGLE_API_KEY" := "from-environment" ]} ∅
        {[ "GOOGLE_API_KEY" := "from-secrets" ]} ∅ ∅ [].
Definition dotenv_world : world :=
  World ∅ {[ "GOOGLE_API_KEY" := "from-dotenv" ]}
        {[ "GOOGLE_API_KEY" := "from-secrets" ]} ∅ ∅ [].
Definition secrets_world : world :=
  World {[ "HOME" := "/root" ]} ∅ {[ "GOOGLE_API_KEY" := "from-secrets" ]} ∅ ∅ [].
Definition cached_cnn_world : world :=
  World ∅ ∅ ∅ {[ "models/cnn_model.h5" := [x09] ]} {[ "models" ]} [].
Definition ready_world : world :=
  World {[ "GOOGLE_API_KEY" := "from-environment" ]} ∅ ∅
        {[ "models/cnn_model.h5" := [x01];
           "models/xception_model.weights.h5" := [x02] ]}
        {[ "models"; "saliency_maps" ]} [].

Definition scan_png : UploadedFile := {| name := "scan.png"; getbuffer := [x89; x50; x4e; x47] |}.

Definition toy_gradients : Array2 := [[1; 2; 3]; [4; 5; 6]; [7; 8; 9]]%Q.
Definition flat_gradients : Array2 := [[2; 2; 2]; [2; 2; 2]; [2; 2; 2]]%Q.
Definition toy_picture : PILImage := replicate 3 (replicate 3 (x80, x80, x80)).
Definition blank_gradients (size : nat) : Array2 := replicate size (replicate size 0%Q).
Definition grey_picture (size : nat) : PILImage :=
  replicate size (replicate size (x80, x80, x80)).

Definition toy_threshold : Q :=
  Eval vm_compute in
    match np_percentile (boolean_index toy_gradients (circular_mask (3, 3)%nat)) 80%Q with
    | inr t => t
    | inl _ => 0%Q
    end.

(** ** The application *)

Section App.

(** A loaded classifier, and what Keras and TensorFlow do with it. *)
Variable Model : Type.
Variable load_xception_weights : list byte → exn + Model.
Variable load_model_file : list byte → exn + Model.
Variable model_predict : Model → Tensor4 → list Array1.

(** The [GradientTape] block (lines 55-62): the gradient of
    [predictions[:, class_index]] with respect to the input image, or the
    exception TensorFlow raises. *)
Variable tape_gradient : Model → Tensor4 → nat → exn + Tensor4.

(** [image.load_img(file, target_size=...)]: decode, convert to RGB and
    resample to the target size. *)
Variable load_img : UploadedFile → nat * nat → exn + PILImage.

(** What module [image] defines besides [load_img] and [img_to_array]. *)
Variable image_other : string → option (PILImage → Array3).

(** OpenCV. *)
Variable cv2_resize : Array2 → nat * nat → Array2.
Variable cv2_GaussianBlur : Array2 → nat * nat → Q → Array2.
Variable cv2_applyColorMap_JET : U8Array2 → U8Array3.
Variable cv2_resize_u8 : U8Array3 → nat * nat → U8Array3.
Variable cv2_imencode : string → U8Array3 → list byte.

(** The file host, the language service and number formatting. *)
Variable remote : string → list byte.
Variable generate_content : string → list byte → exn + string.
Variable format_fixed : nat → Q → string.

(** Attribute lookup on module [image]. *)
Definition image_getattr (attr : string) : exn + (PILImage → Array3) :=
  if String.eqb attr "img_to_array" then inr img_to_array
  else match image_other attr with
       | Some f => inr f
       | None => raise (AttributeError attr)
       end.

(** *** Model provisioner (lines 156-176) *)

Definition gdown_download (url output : string) : App () := λ w,
  (inr (), World (environ w) (dotenv w) (secrets w)
                 (<[output := remote url]> (files w)) (dirs w)
                 (trace w ++ [Download url output])).

Definition cnn_path : string := "models/cnn_model.h5".
Definition xception_path : string := "models/xception_model.weights.h5".

Definition download_models : App (string * string) :=
  os_makedirs "models" ;;
  let cnn_id := "1x9t4iiOryE2jNJ8OCcWgkbNe17YXlPnU" in
  let xception_id := "10tcxflFgOtgrTXDR_fMj_3Dr4oM_rbsm" in
  cnn_exists ← os_path_exists cnn_path;
  (if negb cnn_exists then
     emit (Spinner "Downloading CNN model...") ;;
     gdown_download ("https://drive.google.com/uc?id=" +:+ cnn_id) cnn_path
   else mret ()) ;;
  xception_exists ← os_path_exists xception_path;
  (if negb xception_exists then
     emit (Spinner "Downloading Xception model...") ;;
     gdown_download ("https://drive.google.com/uc?id=" +:+ xception_id) xception_path
   else mret ()) ;;
  mret (cnn_path, xception_path).

(** *** Preprocessing (lines 201-204) *)

Definition preprocess (uploaded_file : UploadedFile) (img_size : nat * nat)
  : exn + (PILImage * Tensor4) :=
  img ← load_img uploaded_file img_size;
  to_array ← image_getattr "img_to_array";
  let img_array := to_array img in
  let img_array := np_expand_dims img_array in
  let img_array := scale_255 img_array in
  mret (img, img_array).

(** *** Saliency renderer (lines 54-102) *)

(** The module-level names the function reads. *)
Record globals := { img : PILImage; uploaded_file : UploadedFile }.

(** Lines 55-67: the gradient image at display size. *)
Definition gradient_image (model : Model) (img_array : Tensor4)
    (class_index : nat) (img_size : nat * nat) : exn + Array2 :=
  gradients ← tape_gradient model img_array class_index;
  gradients ← reduce_max_channels gradients;
  gradients ← squeeze_batch gradients;
  mret (cv2_resize gradients img_size).

(** Lines 85-89: blur, colour map, RGB order, display size. *)
Definition heatmap_of (gradients : Array2) (img_size : nat * nat) : U8Array3 :=
  let gradients := cv2_GaussianBlur gradients (11, 11)%nat 0%Q in
  let heatmap := cv2_applyColorMap_JET (to_uint8_255 gradients) in
  let heatmap := cv2_cvtColor_swap heatmap in
  cv2_resize_u8 heatmap img_size.

(** Lines 55-93: everything up to the composite. *)
Definition render_composite (model : Model) (img_array : Tensor4)
    (class_index : nat) (img_size : nat * nat) (g : globals) : exn + U8Array3 :=
  gradients ← gradient_image model img_array class_index img_size;
  gradients ← saliency_core gradients;
  let heatmap := heatmap_of gradients img_size in
  image_to_array ← image_getattr "image_to_array";
  let original_img := image_to_array (img g) in
  superimposed_img ← weighted_sum heatmap original_img;
  mret (astype_uint8 superimposed_img).

(** Lines 95-101: the two writes. *)
Definition save_composite (superimposed_img : U8Array3) (g : globals) : App () :=
  let img_path := os_path_join output_dir (name (uploaded_file g)) in
  write_file img_path (getbuffer (uploaded_file g)) ;;
  let saliency_map_path := "saliency_maps/" +:+ name (uploaded_file g) in
  write_file saliency_map_path
    (cv2_imencode saliency_map_path (cv2_cvtColor_swap superimposed_img)).

Definition generate_saliency_map (model : Model) (img_array : Tensor4)
    (class_index : nat) (img_size : nat * nat) (g : globals) : App U8Array3 :=
  superimposed_img ← lift (render_composite model img_array class_index img_size g);
  save_composite superimposed_img g ;;
  mret superimposed_img.

(** *** Confidence chart (lines 125-154) *)

Record figure := {
  bar_x : list string;
  bar_y : Array1;
  bar_text : list string;
  marker_color : list string;
  title : string;
  yaxis_title : string;
  yaxis_range : Z * Z
}.

Definition generate_confidence_graph (predictions : Array1) : figure :=
  let values := (λ p, (p * 100)%Q) <$> predictions in
  {| bar_x := labels;
     bar_y := values;
     bar_text := (λ v, format_fixed 1 v +:+ "%") <$> values;
     marker_color := ["#1f77b4"; "#ff7f0e"; "#2ca02c"; "#d62728"];
     title := "Prediction Confidence by Class";
     yaxis_title := "Confidence (%)";
     yaxis_range := (0, 100)%Z |}.

(** *** Explanation (lines 28-52) *)

Definition prompt_of (model_prediction : string) (confidence : Q) : string :=
  "You are an expert neurologist. You are teasked with explaining a saliency map of a brain tumor MRI scan.
    The saliency map was generated by a deep learning model that was trained to classify brain tumors
    as either glioma, meningioma, no tumor, or pituitary.

    The saliency map highlights the regions of the image that the machine learning model is focusing on to make the prediction.

    The deep learning model predicted the image to be of class '" +:+ model_prediction
  +:+ "' with a confidence of  " +:+ format_fixed 2 (confidence * 100)%Q +:+ "%.

    In your response: 
    - Use specific expert medical terminology.
    - Explain what regions of the brain the model is focusing on, based on the saliency map. Refer to the regions highlighted
    in light cyan, those are the regions where the model is focusing on.
    - Explain possible reasons why the model made the predicition it did.
    - Don't mention anything like 'The saliency map highlights the regions the model is focusing on, which are in light cyan' 
    in your explanation.
    - Keep your explanation to 10 sentences max.

    Let's thinkg step by step about this. Verify step by step that your explanation is correct.
    ".

Definition generate_explanation (img_path model_prediction : string)
    (confidence : Q) : App string :=
  let prompt := prompt_of model_prediction confidence in
  picture ← read_file img_path;
  lift (generate_content prompt picture).

(** *** Loading the classifiers (lines 104-123, 195) *)

Definition load_xception_model (model_path : string) : App Model :=
  weights ← read_file model_path;
  lift (load_xception_weights weights).

Definition load_model (model_path : string) : App Model :=
  saved ← read_file model_path;
  lift (load_model_file saved).

(** *** One upload (lines 184-230) *)

Definition handle_upload (file : UploadedFile) (selected_model : string)
    (cnn_path xception_path : string) : App () :=
  model ← (if String.eqb selected_model xception_choice
           then load_xception_model xception_path
           else load_model cnn_path);
  let img_size := img_size_of selected_model in
  '(picture, img_array) ← lift (preprocess file img_size);
  let prediction := model_predict model img_array in
  prediction0 ← lift (index prediction 0);
  '(class_index, result) ← lift (predicted_class prediction0);
  emit (StWrite (predicted_class_text result)) ;;
  emit (StWrite "Predictions:") ;;
  for_each (λ '(label, prob), emit (StWrite (label +:+ ": " +:+ format_fixed 4 prob)))
           (zip labels prediction0) ;;
  saliency_map ← generate_saliency_map model img_array class_index img_size
                    {| img := picture; uploaded_file := file |};
  emit (StImage "Uploaded Image") ;;
  emit (StImage "Saliency Map") ;;
  let confidence_graph := generate_confidence_graph prediction0 in
  emit (StPlotlyChart (bar_y confidence_graph)) ;;
  let saliency_map_path := "saliency_maps/" +:+ name file in
  confidence ← lift (index prediction0 class_index);
  explanation ← generate_explanation saliency_map_path result confidence;
  emit (StWrite "## Explanation:") ;;
  emit (StWrite explanation).

(** *** The script, top to bottom *)

(** Lines 17-26 and 179-181: what runs before an upload is looked at. *)
Definition startup : App (string * string) :=
  configure_api_key ;;
  os_makedirs output_dir ;;
  emit (StTitle "Brain Tumor Classification") ;;
  emit (StWrite "Upload an MRI scan to classify whether it contains a brain tumor.") ;;
  download_models.

(** [upload] is what [st.file_uploader] returned, [selected_model] what
    [st.radio] returned. *)
Definition script (upload : option UploadedFile) (selected_model : string) : App () :=
  '(cnn_path, xception_path) ← startup;
  match upload with
  | Some file => handle_upload file selected_model cnn_path xception_path
  | None => mret ()
  end.

(** ** Vocabulary of the statements *)

(** The world once [load_dotenv()] has run. *)
Definition after_dotenv (w : world) : world :=
  World (load_dotenv (dotenv w) (environ w)) (dotenv w) (secrets w)
        (files w) (dirs w) (trace w).

Definition configured (v : string) (w : world) : world :=
  World (load_dotenv (dotenv w) (environ w)) (dotenv w) (secrets w)
        (files w) (dirs w) (trace w ++ [GenaiConfigure (Some v)]).

(** [a[i][j]] when it exists. *)
Definition at2 {A} (a : list (list A)) (i j : nat) : option A :=
  row ← a !! i; row !! j.

Definition at3 {A} (a : list (list (list A))) (i j k : nat) : option A :=
  px ← at2 a i j; px !! k.

(** The array that agrees with [g] except where the mask is true, where it
    holds [f] of the entry of [g]. *)
Fixpoint map_where_row (f : Q → Q) (m : list bool) (row : Array1) : Array1 :=
  match m, row with
  | b :: m', x :: row' => (if b then f x else x) :: map_where_row f m' row'
  | _, _ => row
  end.

Fixpoint map_where (f : Q → Q) (mask : Mask) (g : Array2) : Array2 :=
  match mask, g with
  | m :: mask', row :: g' => map_where_row f m row :: map_where f mask' g'
  | _, _ => g
  end.

(** A computation that only ever adds to the record of effects. *)
Definition appends {A} (m : App A) : Prop :=
  ∀ w, ∃ new_events, trace (m w).2 = trace w ++ new_events.

(** A computation that ends with an exception from every state. *)
Definition raises {A} (m : App A) : Prop := ∀ w, ∃ e, (m w).1 = inl e.

(** [os.path.exists] as a proposition. *)
Definition path_exists (w : world) (path : string) : Prop :=
  path ∈ dom (files w) ∨ path ∈ dirs w.

Definition drive_url (file_id : string) : string :=
  "https://drive.google.com/uc?id=" +:+ file_id.

(** What one cached weight file looks like after [download_models]: kept
    as it was and never fetched when the path existed, fetched from its
    address exactly once when it did not. *)
Definition cached_or_fetched (w w' : world) (new_events : list event)
    (path file_id : string) : Prop :=
  (path_exists w path →
     files w' !! path = files w !! path ∧
     ∀ url, Download url path ∉ new_events) ∧
  (¬ path_exists w path →
     files w' !! path = Some (remote (drive_url file_id)) ∧
     ∀ url, Download url path ∈ new_events ↔ url = drive_url file_id).

(** What [download_models] does to one cache path, in closed form. *)
Definition fetch_if_missing (w : world) (path file_id : string)
    (m : gmap string (list byte)) : gmap string (list byte) :=
  if bool_decide (path_exists w path) then m
  else <[path := remote (drive_url file_id)]> m.

Definition fetch_events (w : world) (path file_id text : string) : list event :=
  if bool_decide (path_exists w path) then []
  else [Spinner text; Download (drive_url file_id) path].

(** A computation whose new effects all satisfy [P] and which leaves the
    files alone. *)
Definition quiet {A} (P : event → Prop) (m : App A) : Prop :=
  ∀ w, ∃ new_events,
    trace (m w).2 = trace w ++ new_events ∧ Forall P new_events ∧
    files (m w).2 = files w.

(** ** Properties *)

(** *** Running the script *)

Lemma app_bind_inr {A B} (m : App A) (f : A → App B) (w w' : world) (a : A) :
  m w = (inr a, w') → (m ≫= f) w = f a w'.
Proof. intros H. unfold mbind, app_bind. by rewrite H. Qed.

Lemma app_bind_inl {A B} (m : App A) (f : A → App B) (w w' : world) (e : exn) :
  m w = (inl e, w') → (m ≫= f) w = (inl e, w').
Proof. intros H. unfold mbind, app_bind. by rewrite H. Qed.

Lemma lift_bind_inr {A B} (a : A) (f : A → App B) (w : world) :
  (lift (inr a) ≫= f) w = f a w.
Proof. reflexivity. Qed.

Lemma index_Some {A} (l : list A) (i : nat) (x : A) :
  l !! i = Some x → index l i = inr x.
Proof. intros H. unfold index. by rewrite H. Qed.

Lemma emit_bind {B} (e : event) (f : () → App B) (w : world) :
  (emit e ≫= f) w
  = f () (World (environ w) (dotenv w) (secrets w) (files w) (dirs w) (trace w ++ [e])).
Proof. reflexivity. Qed.

Lemma appends_ret {A} (a : A) : appends (mret a : App A).
Proof. intros w. exists []. cbn. by rewrite app_nil_r. Qed.

Lemma appends_lift {A} (r : exn + A) : appends (lift r).
Proof. intros w. exists []. cbn. by rewrite app_nil_r. Qed.

Lemma appends_emit (e : event) : appends (emit e).
Proof. intros w. by exists [e]. Qed.

Lemma appends_write_file (path : string) (data : list byte) :
  appends (write_file path data).
Proof. intros w. by eexists [_]. Qed.

Lemma appends_read_file (path : string) : appends (read_file path).
Proof.
  intros w. exists []. unfold read_file.
  destruct (files w !! path); cbn; by rewrite app_nil_r.
Qed.

Lemma appends_bind {A B} (m : App A) (f : A → App B) :
  appends m → (∀ a, appends (f a)) → appends (m ≫= f).
Proof.
  intros Hm Hf w. unfold mbind, app_bind.
  destruct (Hm w) as [evs1 H1]. destruct (m w) as [[e|a] w1]; cbn in *.
  - by exists evs1.
  - destruct (Hf a w1) as [evs2 H2]. exists (evs1 ++ evs2).
    by rewrite H2, H1, app_assoc.
Qed.

Lemma appends_for_each {A} (body : A → App ()) (l : list A) :
  (∀ x, appends (body x)) → appends (for_each body l).
Proof.
  intros Hbody. induction l as [|x l IH]; cbn.
  - apply appends_ret.
  - apply appends_bind; [apply Hbody|]. intros _. exact IH.
Qed.

Lemma read_file_world (path : string) (w : world) : (read_file path w).2 = w.
Proof. unfold read_file. by destruct (files w !! path). Qed.

(** *** API key *)

Lemma resolve_api_key_environ (env sec : gmap string string) (v : string) :
  env !! "GOOGLE_API_KEY" = Some v → resolve_api_key env sec = inr (Some v).
Proof.
  intros H. unfold resolve_api_key.
  destruct (decide _) as [_|Hn]; [by rewrite H|].
  exfalso. apply Hn, elem_of_dom. by exists v.
Qed.

Lemma resolve_api_key_fallback (env sec : gmap string string) :
  env !! "GOOGLE_API_KEY" = None →
  resolve_api_key env sec =
    match sec !! "GOOGLE_API_KEY" with
    | Some v => inr (Some v)
    | None => inl (KeyError "GOOGLE_API_KEY")
    end.
Proof.
  intros H. unfold resolve_api_key.
  destruct (decide _) as [Hin|_]; [|done].
  apply elem_of_dom in Hin as [v Hv]. congruence.
Qed.

(** C9. The key is the value of GOOGLE_API_KEY in the process environment
    when the variable is set there; otherwise it is the entry of the secrets
    store; when neither has it the lookup raises [KeyError] and the whole
    script stops there, whatever was uploaded: nothing has been configured,
    created, downloaded or shown. *)
Theorem api_key_resolution (w : world) :
  let env := environ (after_dotenv w) in
  (∀ v, env !! "GOOGLE_API_KEY" = Some v →
        configure_api_key w = (inr (), configured v w)) ∧
  (∀ v, env !! "GOOGLE_API_KEY" = None →
        secrets w !! "GOOGLE_API_KEY" = Some v →
        configure_api_key w = (inr (), configured v w)) ∧
  (env !! "GOOGLE_API_KEY" = None →
   secrets w !! "GOOGLE_API_KEY" = None →
   ∀ upload selected_model,
     script upload selected_model w =
       (inl (KeyError "GOOGLE_API_KEY"), after_dotenv w)).
Proof.
  cbn zeta. split; [|split].
  - intros v Hv. unfold configure_api_key, mbind, app_bind, api_key_lookup. cbn.
    by rewrite (resolve_api_key_environ _ _ v Hv).
  - intros v Hn Hs. unfold configure_api_key, mbind, app_bind, api_key_lookup. cbn.
    by rewrite (resolve_api_key_fallback _ _ Hn), Hs.
  - intros Hn Hs upload selected_model.
    assert (configure_api_key w = (inl (KeyError "GOOGLE_API_KEY"), after_dotenv w)) as Hc.
    { unfold configure_api_key, mbind, app_bind, api_key_lookup. cbn.
      by rewrite (resolve_api_key_fallback _ _ Hn), Hs. }
    unfold script. apply app_bind_inl. unfold startup. by apply app_bind_inl.
Qed.

(** *** Model provisioner *)

Lemma exists_after_makedirs (w : world) (path : string) :
  path ≠ "models" →
  bool_decide (path ∈ dom (files w) ∨ path ∈ ({["models"]} ∪ dirs w : gset string))
  = bool_decide (path_exists w path).
Proof. intros Hne. apply bool_decide_ext. unfold path_exists. set_solver. Qed.

Lemma exists_after_other_download (w : world) (path other : string) (data : list byte) :
  path ≠ other → path ≠ "models" →
  bool_decide (path ∈ dom (<[other := data]> (files w))
               ∨ path ∈ ({["models"]} ∪ dirs w : gset string))
  = bool_decide (path_exists w path).
Proof.
  intros Hne Hne'. apply bool_decide_ext. unfold path_exists.
  rewrite dom_insert_L. set_solver.
Qed.


(** *** Comparisons on floats *)

Lemma Qlt_bool_true (x y : Q) : Qlt_bool x y = true ↔ (x < y)%Q.
Proof.
  unfold Qlt_bool. rewrite negb_true_iff, <- not_true_iff_false, Qle_bool_iff.
  split; [apply Qnot_le_lt|apply Qlt_not_le].
Qed.

Lemma Qlt_bool_false (x y : Q) : Qlt_bool x y = false ↔ (y <= x)%Q.
Proof. unfold Qlt_bool. by rewrite negb_false_iff, Qle_bool_iff. Qed.

(** *** The reported label *)

(** The scan of [np.argmax]: [pre] has been read, [best] is its largest
    entry and [besti] the first place that holds it. *)
Lemma argmax_from_spec (v pre : Array1) (best : Q) (besti : nat) :
  pre !! besti = Some best →
  (∀ j x, pre !! j = Some x → (x <= best)%Q) →
  (∀ j x, (j < besti)%nat → pre !! j = Some x → (x < best)%Q) →
  let r := argmax_from best besti (length pre) v in
  ∃ m, (pre ++ v) !! r = Some m ∧
       (∀ j x, (pre ++ v) !! j = Some x → (x <= m)%Q) ∧
       (∀ j x, (j < r)%nat → (pre ++ v) !! j = Some x → (x < m)%Q).
Proof.
  revert pre best besti. induction v as [|y v IH]; intros pre best besti Hb Hle Hlt; cbn.
  - exists best. rewrite app_nil_r. done.
  - assert (length (pre ++ [y]) = S (length pre)) as Hlen
      by (rewrite length_app; cbn; lia).
    destruct (Qlt_bool best y) eqn:Hc.
    + apply Qlt_bool_true in Hc.
      specialize (IH (pre ++ [y]) y (length pre)).
      rewrite Hlen, <- app_assoc in IH. apply IH.
      * by rewrite lookup_app_r, Nat.sub_diag by lia.
      * intros j x Hj. apply lookup_app_Some in Hj as [Hj|[_ Hj]].
        -- apply Qlt_le_weak, Qle_lt_trans with best; eauto.
        -- apply list_lookup_singleton_Some in Hj as [_ <-]. apply Qle_refl.
      * intros j x Hjlt Hj. rewrite lookup_app_l in Hj by done.
        apply Qle_lt_trans with best; eauto.
    + apply Qlt_bool_false in Hc.
      specialize (IH (pre ++ [y]) best besti).
      rewrite Hlen, <- app_assoc in IH. apply IH.
      * apply lookup_app_l_Some. done.
      * intros j x Hj. apply lookup_app_Some in Hj as [Hj|[_ Hj]]; [eauto|].
        by apply list_lookup_singleton_Some in Hj as [_ <-].
      * intros j x Hjlt Hj. apply Hlt with j; [done|].
        apply lookup_lt_Some in Hb.
        by rewrite lookup_app_l in Hj by lia.
Qed.

Lemma np_argmax_spec (v : Array1) :
  v ≠ [] →
  ∃ i m, np_argmax v = inr i ∧ v !! i = Some m ∧
         (∀ j x, v !! j = Some x → (x <= m)%Q) ∧
         (∀ j x, (j < i)%nat → v !! j = Some x → (x < m)%Q).
Proof.
  destruct v as [|x v]; [done|]. intros _.
  destruct (argmax_from_spec v [x] x 0) as (m & Hm & Hle & Hlt).
  - done.
  - intros [|j] y Hj; [|done]. injection Hj as ->. apply Qle_refl.
  - intros j y Hj. lia.
  - exists (argmax_from x 0 1 v), m. done.
Qed.

(** Lines 208-209 on a vector of length 4: the label at the first index of
    the largest entry; neither [np.argmax] nor the subscript can raise. *)
Lemma predicted_class_spec (prediction0 : Array1) :
  length prediction0 = 4%nat →
  ∃ class_index result best,
    predicted_class prediction0 = inr (class_index, result) ∧
    labels !! class_index = Some result ∧
    prediction0 !! class_index = Some best ∧
    (∀ j x, prediction0 !! j = Some x → (x <= best)%Q) ∧
    (∀ j x, (j < class_index)%nat → prediction0 !! j = Some x → (x < best)%Q).
Proof.
  intros Hlen.
  destruct (np_argmax_spec prediction0) as (i & m & Hi & Hm & Hle & Hlt).
  { by destruct prediction0. }
  assert (i < 4)%nat as Hi4 by (rewrite <- Hlen; by eapply lookup_lt_Some).
  destruct (lookup_lt_is_Some_2 labels i) as [result Hr]; [done|].
  exists i, result, m. repeat split; try done.
  unfold predicted_class, index. rewrite Hi. cbn. by rewrite Hr.
Qed.

(** *** Preprocessing *)

Lemma byte_to_Q_range (b : byte) : (0 <= byte_to_Q b <= 255)%Q.
Proof.
  unfold byte_to_Q. pose proof (Byte.to_N_bounded b) as Hb.
  change 0%Q with (inject_Z 0). change 255%Q with (inject_Z 255).
  rewrite <- !Zle_Qle. lia.
Qed.

Lemma scaled_byte_range (b : byte) : (0 <= byte_to_Q b / 255 <= 1)%Q.
Proof.
  pose proof (byte_to_Q_range b).
  split; [apply Qle_shift_div_l|apply Qle_shift_div_r]; lra.
Qed.

Lemma img_to_array_shape (h w : nat) (picture : PILImage) :
  rectangular h w picture →
  length (img_to_array picture) = h ∧
  Forall (λ row, length row = w ∧ Forall (λ px : Array1, length px = 3%nat) row)
         (img_to_array picture).
Proof.
  intros [Hh Hw]. unfold img_to_array. split; [by rewrite length_map|].
  apply Forall_fmap. eapply Forall_impl; [exact Hw|].
  intros row Hrow. cbn. split; [by rewrite length_map|].
  apply Forall_fmap, Forall_forall. by intros [[r g] b] _.
Qed.

Lemma scale_255_range (picture : PILImage) :
  Forall4 (λ x, (0 <= x <= 1)%Q) (scale_255 (np_expand_dims (img_to_array picture))).
Proof.
  unfold Forall4, scale_255, np_expand_dims, img_to_array. cbn.
  constructor; [|constructor].
  rewrite <- list_fmap_compose. apply Forall_fmap, Forall_forall. intros row _. cbn.
  rewrite <- list_fmap_compose. apply Forall_fmap, Forall_forall. intros [[r g] b] _. cbn.
  repeat constructor; apply scaled_byte_range.
Qed.

Lemma scale_255_shape (n h w c : nat) (t : Tensor4) :
  has_shape4 n h w c t → has_shape4 n h w c (scale_255 t).
Proof.
  unfold has_shape4, scale_255. intros [Hn Ht]. split; [by rewrite length_map|].
  apply Forall_fmap. eapply Forall_impl; [exact Ht|]. cbn.
  intros a [Ha Hrows]. split; [by rewrite length_map|].
  apply Forall_fmap. eapply Forall_impl; [exact Hrows|]. cbn.
  intros row [Hrow Hpx]. split; [by rewrite length_map|].
  apply Forall_fmap. eapply Forall_impl; [exact Hpx|]. cbn.
  intros px Hlen. by rewrite length_map.
Qed.

(** C6. When the upload decodes and [load_img] returns a picture of the
    requested size, preprocessing succeeds and yields a tensor of shape
    (1, 299, 299, 3) for the Xception choice and (1, 224, 224, 3) for the
    other one, with every entry in [0, 1]. *)
Theorem preprocess_shape_and_range (file : UploadedFile) (selected_model : string)
    (picture : PILImage) :
  let img_size := img_size_of selected_model in
  load_img file img_size = inr picture →
  rectangular img_size.1 img_size.2 picture →
  ∃ img_array,
    preprocess file img_size = inr (picture, img_array) ∧
    (selected_model = "Transfer Learning - Xception" →
       has_shape4 1 299 299 3 img_array) ∧
    (selected_model ≠ "Transfer Learning - Xception" →
       has_shape4 1 224 224 3 img_array) ∧
    Forall4 (λ x, (0 <= x <= 1)%Q) img_array.
Proof.
  intros img_size Hload Hrect.
  exists (scale_255 (np_expand_dims (img_to_array picture))).
  assert (has_shape4 1 img_size.1 img_size.2 3
            (scale_255 (np_expand_dims (img_to_array picture)))) as Hshape.
  { apply scale_255_shape. destruct (img_to_array_shape _ _ _ Hrect) as [Hh Hrows].
    split; [done|]. by repeat constructor. }
  split; [|split; [|split]].
  - unfold preprocess. rewrite Hload. reflexivity.
  - intros ->. exact Hshape.
  - intros Hne. subst img_size. unfold img_size_of, xception_choice in Hshape.
    by destruct (String.eqb_spec selected_model "Transfer Learning - Xception").
  - apply scale_255_range.
Qed.

(** *** Boolean indexing *)

Lemma select_row_elem (m : list bool) (row : Array1) (j : nat) (x : Q) :
  m !! j = Some true → row !! j = Some x → x ∈ select_row m row.
Proof.
  revert row j. induction m as [|b m IH]; intros [|y row] [|j] Hm Hr; try done.
  - injection Hm as ->. injection Hr as ->. cbn. apply list_elem_of_here.
  - cbn in *. destruct b; [apply list_elem_of_further|]; eauto.
Qed.

Lemma boolean_index_elem (g : Array2) (mask : Mask) (i j : nat) (x : Q) :
  at2 mask i j = Some true → at2 g i j = Some x → x ∈ boolean_index g mask.
Proof.
  unfold at2, boolean_index. intros Hm Hg.
  destruct (mask !! i) as [m|] eqn:Hmi; [|done].
  destruct (g !! i) as [row|] eqn:Hgi; [|done]. cbn in *.
  apply list_elem_of_join. exists (select_row m row). split.
  - by apply select_row_elem with j.
  - apply list_elem_of_lookup. exists i.
    rewrite lookup_zip_with, Hmi. cbn. by rewrite Hgi.
Qed.

Lemma assign_row_map (f : Q → Q) (m : list bool) (row rest : Array1) :
  assign_row m row (map f (select_row m row) ++ rest)
  = Some (map_where_row f m row, rest).
Proof.
  revert row. induction m as [|b m IH]; intros [|x row]; try done.
  cbn. destruct b; cbn; by rewrite IH.
Qed.

Lemma assign_rows_map (f : Q → Q) (mask : Mask) (g : Array2) (rest : Array1) :
  assign_rows mask g (map f (boolean_index g mask) ++ rest)
  = Some (map_where f mask g, rest).
Proof.
  unfold boolean_index. revert g.
  induction mask as [|m mask IH]; intros [|row g]; try done.
  cbn. rewrite map_app, <- app_assoc, assign_row_map. cbn. by rewrite IH.
Qed.

Lemma boolean_assign_map (f : Q → Q) (mask : Mask) (g : Array2) :
  boolean_assign g mask (map f (boolean_index g mask)) = inr (map_where f mask g).
Proof.
  unfold boolean_assign.
  rewrite <- (app_nil_r (map f _)). by rewrite assign_rows_map.
Qed.

Lemma map_where_row_id (m : list bool) (row : Array1) :
  map_where_row id m row = row.
Proof.
  revert row. induction m as [|b m IH]; intros [|x row]; try done.
  cbn. rewrite IH. by destruct b.
Qed.

Lemma map_where_id (mask : Mask) (g : Array2) : map_where id mask g = g.
Proof.
  revert g. induction mask as [|m mask IH]; intros [|row g]; try done.
  cbn. by rewrite map_where_row_id, IH.
Qed.

Lemma boolean_assign_same (mask : Mask) (g : Array2) :
  boolean_assign g mask (boolean_index g mask) = inr g.
Proof.
  rewrite <- (map_id (boolean_index g mask)).
  by rewrite boolean_assign_map, map_where_id.
Qed.

Lemma map_where_row_lookup (f : Q → Q) (m : list bool) (row : Array1) (j : nat) :
  map_where_row f m row !! j =
    match m !! j with
    | Some true => f <$> row !! j
    | _ => row !! j
    end.
Proof.
  revert row j. induction m as [|b m IH]; intros [|x row] [|j]; try done.
  - by destruct b.
  - cbn. by destruct (m !! j) as [[]|].
  - by destruct b.
  - cbn. apply IH.
Qed.

Lemma map_where_lookup (f : Q → Q) (mask : Mask) (g : Array2) (i j : nat) :
  at2 (map_where f mask g) i j =
    match at2 mask i j with
    | Some true => f <$> at2 g i j
    | _ => at2 g i j
    end.
Proof.
  unfold at2. revert g i. induction mask as [|m mask IH]; intros g i.
  - by destruct g.
  - destruct g as [|row g], i as [|i]; cbn.
    + by destruct (m !! j) as [[]|].
    + by destruct (mask !! i ≫= _) as [[]|].
    + apply map_where_row_lookup.
    + apply IH.
Qed.

Lemma select_map_where_row (f : Q → Q) (m : list bool) (row : Array1) :
  select_row m (map_where_row f m row) = map f (select_row m row).
Proof.
  revert row. induction m as [|b m IH]; intros [|x row]; try done.
  cbn. destruct b; cbn; by rewrite IH.
Qed.

Lemma boolean_index_map_where (f : Q → Q) (mask : Mask) (g : Array2) :
  boolean_index (map_where f mask g) mask = map f (boolean_index g mask).
Proof.
  unfold boolean_index. revert g.
  induction mask as [|m mask IH]; intros [|row g]; try done.
  cbn. by rewrite select_map_where_row, IH, map_app.
Qed.

(** *** Maximum and minimum *)

Lemma foldl_max_spec (l : Array1) (acc : Q) :
  let r := foldl (λ m y, if Qlt_bool m y then y else m) acc l in
  (acc <= r)%Q ∧ (∀ x, x ∈ l → (x <= r)%Q) ∧ (r = acc ∨ r ∈ l).
Proof.
  revert acc. induction l as [|y l IH]; intros acc; cbn.
  - split; [apply Qle_refl|]. split; [|by left]. intros x Hx. by apply elem_of_nil in Hx.
  - destruct (Qlt_bool acc y) eqn:Hc.
    + apply Qlt_bool_true in Hc. destruct (IH y) as (Hge & Hall & Hin).
      split; [apply Qle_trans with y; [by apply Qlt_le_weak|done]|].
      split.
      * intros x Hx. apply elem_of_cons in Hx as [->|Hx]; auto.
      * right. destruct Hin as [->|Hin]; [left|by right].
    + apply Qlt_bool_false in Hc. destruct (IH acc) as (Hge & Hall & Hin).
      split; [done|]. split.
      * intros x Hx. apply elem_of_cons in Hx as [->|Hx]; auto.
        by apply Qle_trans with acc.
      * destruct Hin as [->|Hin]; [by left|right; by right].
Qed.

Lemma foldl_min_spec (l : Array1) (acc : Q) :
  let r := foldl (λ m y, if Qlt_bool y m then y else m) acc l in
  (r <= acc)%Q ∧ (∀ x, x ∈ l → (r <= x)%Q) ∧ (r = acc ∨ r ∈ l).
Proof.
  revert acc. induction l as [|y l IH]; intros acc; cbn.
  - split; [apply Qle_refl|]. split; [|by left]. intros x Hx. by apply elem_of_nil in Hx.
  - destruct (Qlt_bool y acc) eqn:Hc.
    + apply Qlt_bool_true in Hc. destruct (IH y) as (Hge & Hall & Hin).
      split; [apply Qle_trans with y; [done|by apply Qlt_le_weak]|].
      split.
      * intros x Hx. apply elem_of_cons in Hx as [->|Hx]; auto.
      * right. destruct Hin as [->|Hin]; [left|by right].
    + apply Qlt_bool_false in Hc. destruct (IH acc) as (Hge & Hall & Hin).
      split; [done|]. split.
      * intros x Hx. apply elem_of_cons in Hx as [->|Hx]; auto.
        by apply Qle_trans with acc.
      * destruct Hin as [->|Hin]; [by left|right; by right].
Qed.

Lemma np_max_spec (a : Array1) (mx : Q) :
  np_max a = inr mx → mx ∈ a ∧ ∀ x, x ∈ a → (x <= mx)%Q.
Proof.
  destruct a as [|y a]; [done|]. cbn. intros [= <-].
  destruct (foldl_max_spec a y) as (Hge & Hall & Hin). split.
  - destruct Hin as [->|Hin]; [left|by right].
  - intros x Hx. apply elem_of_cons in Hx as [->|Hx]; auto.
Qed.

Lemma np_min_spec (a : Array1) (mn : Q) :
  np_min a = inr mn → mn ∈ a ∧ ∀ x, x ∈ a → (mn <= x)%Q.
Proof.
  destruct a as [|y a]; [done|]. cbn. intros [= <-].
  destruct (foldl_min_spec a y) as (Hge & Hall & Hin). split.
  - destruct Hin as [->|Hin]; [left|by right].
  - intros x Hx. apply elem_of_cons in Hx as [->|Hx]; auto.
Qed.

Lemma np_max_defined (a : Array1) : a ≠ [] → ∃ mx, np_max a = inr mx.
Proof. destruct a; [done|]. intros _. by eexists. Qed.

Lemma np_min_defined (a : Array1) : a ≠ [] → ∃ mn, np_min a = inr mn.
Proof. destruct a; [done|]. intros _. by eexists. Qed.

(** *** Normalisation *)

Lemma np_true_divide_nonzero (a b : Q) :
  ¬ (b == 0)%Q → np_true_divide a b = inr (a / b)%Q.
Proof.
  intros Hb. unfold np_true_divide.
  destruct (Qeq_bool b 0) eqn:Hc; [|done].
  by apply Qeq_bool_iff in Hc.
Qed.

Lemma mapM_divide (mn d : Q) (l : Array1) :
  ¬ (d == 0)%Q →
  mapM (λ x, np_true_divide (x - mn)%Q d) l = inr (map (λ x, (x - mn) / d)%Q l).
Proof.
  intros Hd. induction l as [|x l IH]; [done|].
  cbn. rewrite np_true_divide_nonzero by done. cbn. by rewrite IH.
Qed.

Lemma normalized_range (x mn mx : Q) :
  (mn <= x)%Q → (x <= mx)%Q → (mn < mx)%Q → (0 <= (x - mn) / (mx - mn) <= 1)%Q.
Proof.
  intros H1 H2 H3.
  split; [apply Qle_shift_div_l|apply Qle_shift_div_r]; lra.
Qed.

Lemma normalize_brain_spread (mx mn : Q) (l : Array1) :
  np_max l = inr mx → np_min l = inr mn → (mn < mx)%Q →
  normalize_brain l = inr (map (λ x, (x - mn) / (mx - mn))%Q l).
Proof.
  intros Hmx Hmn Hlt. unfold normalize_brain. rewrite Hmx, Hmn. cbn.
  rewrite (proj2 (Qlt_bool_true mn mx) Hlt).
  apply mapM_divide. intros Hz. lra.
Qed.

Lemma normalize_brain_flat (mx mn : Q) (l : Array1) :
  np_max l = inr mx → np_min l = inr mn → (mx == mn)%Q →
  normalize_brain l = inr l.
Proof.
  intros Hmx Hmn Heq. unfold normalize_brain. rewrite Hmx, Hmn. cbn.
  rewrite (proj2 (Qlt_bool_false mn mx)); [done|]. lra.
Qed.

Lemma Qmult_1_r_eq (x : Q) : (x * 1)%Q = x.
Proof.
  destruct x as [n d]. unfold Qmult. cbn.
  by rewrite Z.mul_1_r, Pos.mul_1_r.
Qed.

Lemma np_multiply_mask_lookup (g : Array2) (mask : Mask) (i j : nat) :
  at2 (np_multiply_mask g mask) i j =
    x ← at2 g i j; b ← at2 mask i j; Some (x * mask_factor b)%Q.
Proof.
  unfold at2, np_multiply_mask. rewrite lookup_zip_with.
  destruct (g !! i) as [row|]; [|done]. cbn.
  destruct (mask !! i) as [m|]; cbn.
  - rewrite lookup_zip_with. by destruct (row !! j).
  - by destruct (row !! j).
Qed.

(** C2. Let [mx] and [mn] be the maximum and the minimum of the gradient
    values inside the mask. The normalisation step succeeds, so no division
    by zero is met. When [mn < mx] the denominator [mx - mn] is not zero and
    every value inside the mask becomes [(x - mn) / (mx - mn)], a number of
    [0, 1]. When [mx] equals [mn] normalisation is skipped and every value
    inside the mask is the value of the gradient image there. Values outside
    the mask are those of the masked image in both cases. *)
Theorem normalization_guard (gradients : Array2) (mask : Mask) (mx mn : Q) :
  let masked := np_multiply_mask gradients mask in
  let brain_gradients := boolean_index masked mask in
  np_max brain_gradients = inr mx →
  np_min brain_gradients = inr mn →
  ∃ out,
    normalize_in_mask gradients mask = inr out ∧
    ((mn < mx)%Q →
       ¬ (mx - mn == 0)%Q ∧
       normalize_brain brain_gradients
         = inr (map (λ x, (x - mn) / (mx - mn))%Q brain_gradients) ∧
       ∀ i j x, at2 mask i j = Some true → at2 gradients i j = Some x →
         at2 out i j = Some ((x - mn) / (mx - mn))%Q ∧
         (0 <= (x - mn) / (mx - mn) <= 1)%Q) ∧
    ((mx == mn)%Q →
       normalize_brain brain_gradients = inr brain_gradients ∧
       out = masked ∧
       ∀ i j x, at2 mask i j = Some true → at2 gradients i j = Some x →
         at2 out i j = Some x) ∧
    (∀ i j, at2 mask i j ≠ Some true → at2 out i j = at2 masked i j).
Proof.
  intros masked brain_gradients Hmx Hmn.
  destruct (np_max_spec _ _ Hmx) as [Hmx_in Hmx_le].
  destruct (np_min_spec _ _ Hmn) as [Hmn_in Hmn_le].
  assert (∀ i j x, at2 mask i j = Some true → at2 gradients i j = Some x →
                   at2 masked i j = Some x) as Hinside.
  { intros i j x Hm Hg. subst masked.
    rewrite np_multiply_mask_lookup, Hg, Hm. cbn. by rewrite Qmult_1_r_eq. }
  destruct (Qlt_le_dec mn mx) as [Hlt|Hge].
  - exists (map_where (λ x, (x - mn) / (mx - mn))%Q mask masked).
    pose proof (normalize_brain_spread mx mn _ Hmx Hmn Hlt) as Hn.
    split; [|split; [|split]].
    + unfold normalize_in_mask. fold masked. fold brain_gradients. rewrite Hn. cbn.
      apply boolean_assign_map.
    + intros _. split; [intros Hz; lra|]. split; [done|].
      intros i j x Hm Hg. pose proof (Hinside i j x Hm Hg) as Hx.
      split; [by rewrite map_where_lookup, Hm, Hx|].
      assert (x ∈ brain_gradients) as Hin by (by eapply boolean_index_elem).
      apply normalized_range; auto.
    + intros Heq. lra.
    + intros i j Hm. rewrite map_where_lookup.
      by destruct (at2 mask i j) as [[]|].
  - assert (mx == mn)%Q as Heq by (apply Qle_antisym; auto).
    pose proof (normalize_brain_flat mx mn _ Hmx Hmn Heq) as Hn.
    exists masked. split; [|split; [|split]].
    + unfold normalize_in_mask. fold masked. fold brain_gradients. rewrite Hn. cbn.
      apply boolean_assign_same.
    + intros Hlt. lra.
    + intros _. split; [done|]. split; [done|]. exact Hinside.
    + done.
Qed.

(** *** Threshold *)

Lemma zero_below_lookup (threshold : Q) (g : Array2) (i j : nat) :
  at2 (zero_below threshold g) i j
  = (λ x, if Qlt_bool x threshold then 0%Q else x) <$> at2 g i j.
Proof.
  unfold at2, zero_below. rewrite list_lookup_fmap.
  destruct (g !! i) as [row|]; [|done]. cbn. by rewrite list_lookup_fmap.
Qed.

Lemma np_percentile_defined (a : Array1) (q : Q) :
  a ≠ [] → ∃ t, np_percentile a q = inr t.
Proof. destruct a; [done|]. intros _. by eexists. Qed.

(** *** Sorting and the percentile *)

Lemma insert_sorted_perm (x : Q) (l : Array1) : insert_sorted x l ≡ₚ x :: l.
Proof.
  induction l as [|y l IH]; [done|]. cbn.
  destruct (Qle_bool x y); [done|]. by rewrite IH, Permutation_swap.
Qed.

Lemma np_sort_perm (a : Array1) : np_sort a ≡ₚ a.
Proof.
  induction a as [|x a IH]; [done|]. cbn.
  by rewrite insert_sorted_perm, IH.
Qed.

Lemma insert_sorted_sorted (x : Q) (l : Array1) :
  StronglySorted Qle l → StronglySorted Qle (insert_sorted x l).
Proof.
  induction 1 as [|y l Hl IH Hy]; cbn.
  - by repeat constructor.
  - destruct (Qle_bool x y) eqn:Hc.
    + apply Qle_bool_iff in Hc. constructor; [by constructor|].
      constructor; [done|]. eapply Forall_impl; [exact Hy|].
      intros z Hz. by apply Qle_trans with y.
    + assert (y <= x)%Q as Hyx.
      { apply Qlt_le_weak, Qnot_le_lt. intros Hle.
        apply Qle_bool_iff in Hle. congruence. }
      constructor; [done|]. rewrite insert_sorted_perm. by constructor.
Qed.

Lemma np_sort_sorted (a : Array1) : StronglySorted Qle (np_sort a).
Proof.
  induction a as [|x a IH]; cbn; [constructor|]. by apply insert_sorted_sorted.
Qed.

Lemma sorted_lookup_le (s : Array1) (i j : nat) (x y : Q) :
  StronglySorted Qle s → (i <= j)%nat →
  s !! i = Some x → s !! j = Some y → (x <= y)%Q.
Proof.
  intros Hs. revert i j. induction Hs as [|z s Hs IH Hz]; intros i j Hij Hi Hj; [done|].
  destruct i as [|i], j as [|j]; cbn in *; try lia.
  - injection Hi as <-. injection Hj as <-. apply Qle_refl.
  - injection Hi as <-. rewrite Forall_forall in Hz. apply Hz.
    by eapply list_elem_of_lookup_2.
  - apply (IH i j); [lia|done..].
Qed.

(** The percentile is a value between two entries of the array: the sorted
    neighbours of the virtual index. *)
Lemma np_percentile_between (a : Array1) (q t : Q) :
  (0 <= q <= 100)%Q → np_percentile a q = inr t →
  ∃ lo hi, lo ∈ a ∧ hi ∈ a ∧ (lo <= t <= hi)%Q.
Proof.
  intros [Hq0 Hq100] Hp.
  assert (0 < length a)%nat as Hn by (destruct a; [done|cbn; lia]).
  assert (t = interpolate (np_sort a) q) as ->
    by (destruct a; [done|]; unfold np_percentile in Hp; by injection Hp as <-).
  clear Hp. unfold interpolate.
  assert (length (np_sort a) = length a) as Hlen by (by rewrite np_sort_perm).
  rewrite Hlen. set (n := length a) in *.
  set (vi := (inject_Z (Z.of_nat (n - 1)) * (q / 100))%Q).
  set (previous := Z.to_nat (Qfloor vi)).
  set (next := Nat.min (S previous) (n - 1)).
  assert (0 <= q / 100 <= 1)%Q as [Hr0 Hr1].
  { split; [apply Qle_shift_div_l|apply Qle_shift_div_r]; lra. }
  assert (0 <= inject_Z (Z.of_nat (n - 1)))%Q as Hn1.
  { change 0%Q with (inject_Z 0). rewrite <- Zle_Qle. lia. }
  assert (0 <= vi)%Q as Hvi0 by (by apply Qmult_le_0_compat).
  assert (vi <= inject_Z (Z.of_nat (n - 1)))%Q as Hvi1.
  { unfold vi. rewrite <- (Qmult_1_r (inject_Z (Z.of_nat (n - 1)))) at 2.
    apply Qmult_le_compat_nonneg; split; lra. }
  assert (0 <= Qfloor vi)%Z as Hf0.
  { change 0%Z with (Qfloor 0). by apply Qfloor_resp_le. }
  assert (Qfloor vi <= Z.of_nat (n - 1))%Z as Hf1.
  { rewrite <- (Qfloor_Z (Z.of_nat (n - 1))). by apply Qfloor_resp_le. }
  assert (inject_Z (Z.of_nat previous) = inject_Z (Qfloor vi)) as Hprev.
  { unfold previous. by rewrite Z2Nat.id. }
  assert (previous <= n - 1)%nat as Hp1 by (unfold previous; lia).
  assert (previous <= next)%nat as Hpn by (unfold next; lia).
  assert (next <= n - 1)%nat as Hn2 by (unfold next; lia).
  destruct (lookup_lt_is_Some_2 (np_sort a) previous) as [lo Hlo]; [lia|].
  destruct (lookup_lt_is_Some_2 (np_sort a) next) as [hi Hhi]; [lia|].
  rewrite !nth_lookup, Hlo, Hhi. cbn [default from_option]. unfold id.
  exists lo, hi.
  split; [rewrite <- (np_sort_perm a); by eapply list_elem_of_lookup_2|].
  split; [rewrite <- (np_sort_perm a); by eapply list_elem_of_lookup_2|].
  pose proof (sorted_lookup_le _ _ _ _ _ (np_sort_sorted a) Hpn Hlo Hhi) as Hlohi.
  pose proof (Qfloor_le vi) as Hfl. pose proof (Qlt_floor vi) as Hfu.
  rewrite inject_Z_plus in Hfu. change (inject_Z 1) with 1%Q in Hfu. rewrite Hprev.
  set (gamma := (vi - inject_Z (Qfloor vi))%Q).
  assert (0 <= gamma <= 1)%Q as [Hg0 Hg1] by (unfold gamma; split; lra).
  assert (0 <= (hi - lo) * gamma)%Q as Hm0 by (apply Qmult_le_0_compat; lra).
  assert ((hi - lo) * gamma <= (hi - lo) * 1)%Q as Hm1
    by (apply Qmult_le_compat_nonneg; split; lra).
  split; lra.
Qed.

(** C4. With [threshold] the 80th percentile of the values inside the
    mask (a number between two of these values), the thresholding step
    succeeds; afterwards every entry of the gradient image that was strictly
    below [threshold] is 0 and every entry at or above it is what it was. *)
Theorem threshold_zeroes_below (gradients : Array2) (mask : Mask) (threshold : Q) :
  np_percentile (boolean_index gradients mask) 80%Q = inr threshold →
  (∃ lo hi, lo ∈ boolean_index gradients mask ∧ hi ∈ boolean_index gradients mask ∧
            (lo <= threshold <= hi)%Q) ∧
  ∃ out,
    threshold_top gradients mask = inr out ∧
    ∀ i j x, at2 gradients i j = Some x →
      ((x < threshold)%Q → at2 out i j = Some 0%Q) ∧
      ((threshold <= x)%Q → at2 out i j = Some x).
Proof.
  intros Hp. split.
  { apply (np_percentile_between _ 80%Q); [split; lra|done]. }
  exists (zero_below threshold gradients). split.
  - unfold threshold_top. by rewrite Hp.
  - intros i j x Hx. rewrite zero_below_lookup, Hx. cbn. split; intros Hc.
    + by rewrite (proj2 (Qlt_bool_true _ _) Hc).
    + by rewrite (proj2 (Qlt_bool_false _ _) Hc).
Qed.

(** *** The region of interest is never empty *)

Lemma circular_mask_lookup (h w i j : nat) :
  (i < h)%nat → (j < w)%nat →
  at2 (circular_mask (h, w)) i j
  = Some (in_circle (center (h, w)) (radius (center (h, w)))
                    (Z.of_nat i) (Z.of_nat j)).
Proof.
  intros Hi Hj. unfold at2, circular_mask. cbn [fst snd].
  rewrite list_lookup_fmap, lookup_seq_lt by done. cbn.
  by rewrite list_lookup_fmap, lookup_seq_lt by done.
Qed.

Lemma in_circle_center (c : Z * Z) (r : Z) : in_circle c r c.2 c.1 = true.
Proof. unfold in_circle. apply Z.leb_le. nia. Qed.

Lemma square_center_selected (size : nat) :
  (0 < size)%nat →
  at2 (circular_mask (size, size)) (size / 2) (size / 2) = Some true.
Proof.
  intros Hs.
  assert (size / 2 < size)%nat as Hlt by (apply Nat.div_lt; lia).
  rewrite circular_mask_lookup by done.
  f_equal. unfold center. cbn [fst snd].
  replace (Z.of_nat (size / 2)) with (Z.of_nat size / 2)%Z
    by (by rewrite Nat2Z.inj_div).
  apply (in_circle_center (Z.of_nat size / 2, Z.of_nat size / 2)%Z).
Qed.

Lemma rectangular_shape2 {A} (h w : nat) (a : list (list A)) :
  (0 < h)%nat → rectangular h w a → shape2 a = (h, w).
Proof.
  intros Hh [Hlen Hrows]. unfold shape2. destruct a as [|row a]; cbn in *; [lia|].
  apply Forall_cons in Hrows as [-> _]. by rewrite Hlen.
Qed.

Lemma rectangular_lookup {A} (h w : nat) (a : list (list A)) (i j : nat) :
  rectangular h w a → (i < h)%nat → (j < w)%nat → is_Some (at2 a i j).
Proof.
  intros [Hlen Hrows] Hi Hj. unfold at2.
  destruct (lookup_lt_is_Some_2 a i) as [row Hrow]; [lia|].
  rewrite Hrow. cbn. apply lookup_lt_is_Some_2.
  rewrite Forall_forall in Hrows.
  rewrite (Hrows row); [done|]. by eapply list_elem_of_lookup_2.
Qed.

Lemma normalize_in_mask_defined (gradients : Array2) (mask : Mask) :
  boolean_index (np_multiply_mask gradients mask) mask ≠ [] →
  ∃ f, normalize_in_mask gradients mask
       = inr (map_where f mask (np_multiply_mask gradients mask)).
Proof.
  intros Hne.
  destruct (np_max_defined _ Hne) as [mx Hmx].
  destruct (np_min_defined _ Hne) as [mn Hmn].
  unfold normalize_in_mask.
  destruct (Qlt_le_dec mn mx) as [Hlt|Hge].
  - exists (λ x, (x - mn) / (mx - mn))%Q.
    rewrite (normalize_brain_spread mx mn _ Hmx Hmn Hlt). cbn.
    apply boolean_assign_map.
  - exists id. unfold normalize_brain. rewrite Hmx, Hmn. cbn.
    rewrite (proj2 (Qlt_bool_false mn mx) Hge), map_where_id.
    apply boolean_assign_same.
Qed.

(** C10. For a gradient image of 224x224 or 299x299 the radius is
    [size // 2 - 10], the mask selects the pixel at the centre, and so the
    selection [gradients[mask]] is not empty at line 76 nor at line 82:
    [max], [min] and [percentile] all have a value and lines 69-83 run to
    the end. *)
Theorem mask_selects_pixels (size : nat) (gradients : Array2) :
  size = 224%nat ∨ size = 299%nat →
  rectangular size size gradients →
  let mask := circular_mask (shape2 gradients) in
  let brain_gradients := boolean_index (np_multiply_mask gradients mask) mask in
  radius (center (shape2 gradients)) = (Z.of_nat size / 2 - 10)%Z ∧
  at2 mask (size / 2) (size / 2) = Some true ∧
  brain_gradients ≠ [] ∧
  (∃ mx mn, np_max brain_gradients = inr mx ∧ np_min brain_gradients = inr mn) ∧
  (∃ normalized threshold out,
     normalize_in_mask gradients mask = inr normalized ∧
     boolean_index normalized mask ≠ [] ∧
     np_percentile (boolean_index normalized mask) 80%Q = inr threshold ∧
     saliency_core gradients = inr out).
Proof.
  intros Hsize Hrect mask brain_gradients.
  assert (0 < size)%nat as Hpos by (destruct Hsize; lia).
  assert (size / 2 < size)%nat as Hlt by (apply Nat.div_lt; lia).
  pose proof (rectangular_shape2 _ _ _ Hpos Hrect) as Hshape.
  assert (at2 mask (size / 2) (size / 2) = Some true) as Hc.
  { subst mask. rewrite Hshape. by apply square_center_selected. }
  assert (brain_gradients ≠ []) as Hne.
  { destruct (rectangular_lookup _ _ _ _ _ Hrect Hlt Hlt) as [x Hx].
    assert ((x * 1)%Q ∈ brain_gradients) as Hin.
    { apply boolean_index_elem with (size / 2)%nat (size / 2)%nat; [done|].
      rewrite np_multiply_mask_lookup, Hx. fold mask. by rewrite Hc. }
    intros Hnil. rewrite Hnil in Hin. by apply elem_of_nil in Hin. }
  split; [|split; [done|split; [done|split]]].
  - rewrite Hshape. unfold radius, center. cbn [fst snd]. lia.
  - destruct (np_max_defined _ Hne) as [mx Hmx].
    destruct (np_min_defined _ Hne) as [mn Hmn]. by exists mx, mn.
  - destruct (normalize_in_mask_defined gradients mask Hne) as [f Hf].
    assert (boolean_index (map_where f mask (np_multiply_mask gradients mask)) mask ≠ [])
      as Hne'.
    { rewrite boolean_index_map_where. fold brain_gradients.
      by destruct brain_gradients. }
    destruct (np_percentile_defined _ 80%Q Hne') as [t Ht].
    eexists _, t, _. split; [exact Hf|]. split; [done|]. split; [done|].
    unfold saliency_core. fold mask. rewrite Hf.
    unfold mbind at 1, result_bind, threshold_top. by rewrite Ht.
Qed.

(** *** The saliency renderer as a whole *)

Lemma generate_saliency_map_raise (model : Model) (img_array : Tensor4)
    (class_index : nat) (img_size : nat * nat) (g : globals) (w : world) (e : exn) :
  render_composite model img_array class_index img_size g = inl e →
  generate_saliency_map model img_array class_index img_size g w = (inl e, w).
Proof.
  intros H. unfold generate_saliency_map, lift, mbind, app_bind. by rewrite H.
Qed.

Lemma generate_saliency_map_return (model : Model) (img_array : Tensor4)
    (class_index : nat) (img_size : nat * nat) (g : globals) (w : world)
    (composite : U8Array3) :
  render_composite model img_array class_index img_size g = inr composite →
  generate_saliency_map model img_array class_index img_size g w
  = (inr composite, (save_composite composite g w).2).
Proof.
  intros H. unfold generate_saliency_map, lift, mbind, app_bind. rewrite H.
  unfold save_composite, mbind, app_bind, write_file. reflexivity.
Qed.

(** Line 91 is where a call without [image.image_to_array] ends. *)
Lemma render_composite_raises (model : Model) (img_array : Tensor4)
    (class_index : nat) (img_size : nat * nat) (g : globals) :
  image_other "image_to_array" = None →
  ∃ e, render_composite model img_array class_index img_size g = inl e ∧
       (∀ g0 g1, gradient_image model img_array class_index img_size = inr g0 →
                 saliency_core g0 = inr g1 →
                 e = AttributeError "image_to_array").
Proof.
  intros Hnone. unfold render_composite.
  destruct (gradient_image model img_array class_index img_size) as [e|g0]; cbn.
  { exists e. split; [done|]. by intros. }
  destruct (saliency_core g0) as [e|g1] eqn:Hcore; cbn.
  { exists e. split; [done|]. intros g0' g1 [= <-] Hcore'. congruence. }
  unfold image_getattr. cbn. rewrite Hnone. cbn.
  eexists. split; [done|]. by intros.
Qed.

(** Failing run behind C3. When module [image] has no attribute
    [image_to_array], no call of [generate_saliency_map] returns a
    composite: the call ends with an exception, which is [AttributeError]
    for [image_to_array] whenever lines 55-83 went through, and the blend of
    lines 92-93 is never computed. *)
Theorem composite_never_returned (model : Model) (img_array : Tensor4)
    (class_index : nat) (img_size : nat * nat) (g : globals) (w : world) :
  image_other "image_to_array" = None →
  ∃ e, (generate_saliency_map model img_array class_index img_size g w).1 = inl e ∧
       (∀ g0 g1, gradient_image model img_array class_index img_size = inr g0 →
                 saliency_core g0 = inr g1 →
                 e = AttributeError "image_to_array").
Proof.
  intros Hnone.
  destruct (render_composite_raises model img_array class_index img_size g Hnone)
    as (e & He & Hattr).
  exists e. split; [|done].
  by rewrite (generate_saliency_map_raise _ _ _ _ _ _ _ He).
Qed.

(** Failing run behind C5. When module [image] has no attribute
    [image_to_array], a call of [generate_saliency_map] writes no file at
    all: it leaves the files and the record of effects as they were. *)
Theorem nothing_written (model : Model) (img_array : Tensor4)
    (class_index : nat) (img_size : nat * nat) (g : globals) (w : world) :
  image_other "image_to_array" = None →
  let w' := (generate_saliency_map model img_array class_index img_size g w).2 in
  w' = w ∧ files w' = files w ∧ trace w' = trace w.
Proof.
  intros Hnone.
  destruct (render_composite_raises model img_array class_index img_size g Hnone)
    as (e & He & _).
  by rewrite (generate_saliency_map_raise _ _ _ _ _ _ _ He).
Qed.

(** What lines 92-101 do once [image.image_to_array] resolves. *)

Lemma os_path_join_relative (file_name : string) :
  String.prefix "/" file_name = false →
  os_path_join output_dir file_name = "saliency_maps/" +:+ file_name.
Proof. intros H. unfold os_path_join. by rewrite H. Qed.

Lemma save_composite_effect (composite : U8Array3) (g : globals) (w : world) :
  let img_path := os_path_join output_dir (name (uploaded_file g)) in
  let saliency_map_path := "saliency_maps/" +:+ name (uploaded_file g) in
  let encoded := cv2_imencode saliency_map_path (cv2_cvtColor_swap composite) in
  let w' := (save_composite composite g w).2 in
  (save_composite composite g w).1 = inr () ∧
  files w' = <[saliency_map_path := encoded]>
               (<[img_path := getbuffer (uploaded_file g)]> (files w)) ∧
  trace w' = trace w ++ [WriteFile img_path (getbuffer (uploaded_file g));
                         WriteFile saliency_map_path encoded].
Proof.
  unfold save_composite, mbind, app_bind, write_file. cbn.
  by rewrite <- app_assoc.
Qed.

(** With a relative file name both writes go to the one path
    [saliency_maps/<name>]: the composite replaces the raw bytes written
    just before, and no other path changes. *)
Lemma save_composite_relative (composite : U8Array3) (g : globals) (w : world) :
  String.prefix "/" (name (uploaded_file g)) = false →
  let saliency_map_path := "saliency_maps/" +:+ name (uploaded_file g) in
  let encoded := cv2_imencode saliency_map_path (cv2_cvtColor_swap composite) in
  let w' := (save_composite composite g w).2 in
  trace w' = trace w ++ [WriteFile saliency_map_path (getbuffer (uploaded_file g));
                         WriteFile saliency_map_path encoded] ∧
  files w' !! saliency_map_path = Some encoded ∧
  ∀ path, path ≠ saliency_map_path → files w' !! path = files w !! path.
Proof.
  intros Hrel. cbn zeta.
  destruct (save_composite_effect composite g w) as (_ & Hfiles & Htrace).
  rewrite Htrace, Hfiles, (os_path_join_relative _ Hrel).
  split; [done|]. split; [by rewrite lookup_insert_eq|].
  intros path Hne. by rewrite !lookup_insert_ne.
Qed.

Lemma blend_lookup (heatmap : U8Array3) (original_img : Array3) (i j k : nat) :
  at3 (zip_with (zip_with (zip_with blend_value)) heatmap original_img) i j k =
    h ← at3 heatmap i j k; o ← at3 original_img i j k; Some (blend_value h o).
Proof.
  unfold at3, at2. rewrite lookup_zip_with.
  destruct (heatmap !! i) as [hrow|]; [|done]. cbn.
  destruct (original_img !! i) as [orow|]; cbn.
  - rewrite lookup_zip_with.
    destruct (hrow !! j) as [hpx|]; [|done]. cbn.
    destruct (orow !! j) as [opx|]; cbn.
    + rewrite lookup_zip_with. by destruct (hpx !! k).
    + by destruct (hpx !! k).
  - destruct (hrow !! j) as [hpx|]; [|done]. cbn. by destruct (hpx !! k).
Qed.

Lemma astype_uint8_lookup (a : Array3) (i j k : nat) :
  at3 (astype_uint8 a) i j k = np_uint8 <$> at3 a i j k.
Proof.
  unfold at3, at2, astype_uint8. rewrite list_lookup_fmap.
  destruct (a !! i) as [row|]; [|done]. cbn. rewrite list_lookup_fmap.
  destruct (row !! j) as [px|]; [|done]. cbn. by rewrite list_lookup_fmap.
Qed.

(** On byte-valued operands the blend stays within a byte, so the cast to
    [uint8] only drops the fraction and never wraps around. *)
Lemma blend_fits_uint8 (h : Z) (o : Q) :
  (0 <= h <= 255)%Z → (0 <= o <= 255)%Q →
  np_uint8 (blend_value h o) = Qfloor (blend_value h o) ∧
  (0 <= np_uint8 (blend_value h o) <= 255)%Z.
Proof.
  intros Hh [Ho0 Ho255].
  assert (0 <= inject_Z h <= 255)%Q as [Hh0 Hh255].
  { change 0%Q with (inject_Z 0). change 255%Q with (inject_Z 255).
    rewrite <- !Zle_Qle. lia. }
  assert (0 <= blend_value h o <= 255)%Q as [Hb0 Hb255].
  { unfold blend_value. split; lra. }
  assert (0 <= Qfloor (blend_value h o) <= 255)%Z as Hfloor.
  { split.
    - change 0%Z with (Qfloor 0). by apply Qfloor_resp_le.
    - change 255%Z with (Qfloor 255). by apply Qfloor_resp_le. }
  assert (Qtrunc (blend_value h o) = Qfloor (blend_value h o)) as Htrunc.
  { destruct (blend_value h o) as [n d] eqn:Hq. unfold Qtrunc, Qfloor. cbn.
    apply Z.quot_div_nonneg; [|lia].
    unfold Qle in Hb0. cbn in Hb0. lia. }
  unfold np_uint8. rewrite Htrunc, Z.mod_small by lia. split; [done|lia].
Qed.

(** The composite that a resolved [image_to_array] would give: entry by
    entry [uint8 (0.7 * heatmap + 0.3 * original)], the heat map being the
    blurred, colour-mapped, RGB-ordered thresholded gradient image. *)
Lemma render_composite_blend (model : Model) (img_array : Tensor4)
    (class_index : nat) (img_size : nat * nat) (g : globals)
    (to_array : PILImage → Array3) (g0 g1 : Array2) :
  image_other "image_to_array" = Some to_array →
  gradient_image model img_array class_index img_size = inr g0 →
  saliency_core g0 = inr g1 →
  let heatmap :=
    cv2_resize_u8
      (cv2_cvtColor_swap
         (cv2_applyColorMap_JET
            (to_uint8_255 (cv2_GaussianBlur g1 (11, 11)%nat 0%Q)))) img_size in
  let original_img := to_array (img g) in
  same_shape3 heatmap original_img →
  ∃ composite,
    render_composite model img_array class_index img_size g = inr composite ∧
    ∀ i j k h o, at3 heatmap i j k = Some h → at3 original_img i j k = Some o →
      at3 composite i j k = Some (np_uint8 (inject_Z h * 0.7 + o * 0.3)%Q).
Proof.
  intros Hattr Hg0 Hg1 heatmap original_img Hshape.
  exists (astype_uint8 (zip_with (zip_with (zip_with blend_value)) heatmap original_img)).
  split.
  - unfold render_composite. rewrite Hg0. cbn. rewrite Hg1. cbn.
    unfold image_getattr. cbn. rewrite Hattr. cbn.
    unfold weighted_sum, heatmap_of. fold heatmap. fold original_img.
    by rewrite decide_True.
  - intros i j k h o Hh Ho.
    by rewrite astype_uint8_lookup, blend_lookup, Hh, Ho.
Qed.

(** The picture can be read back from the tensor made of it. *)

Lemma map_inj_eq {A B} (f : A → B) :
  (∀ x y, f x = f y → x = y) → ∀ l k, map f l = map f k → l = k.
Proof.
  intros Hf. induction l as [|x l IH]; intros [|y k] Heq; try done.
  injection Heq as Hxy Hlk. f_equal; auto.
Qed.

Lemma byte_value_inj (a b : byte) :
  Z.of_N (Byte.to_N a) = Z.of_N (Byte.to_N b) → a = b.
Proof.
  intros Heq%N2Z.inj.
  assert (Some a = Some b) as [= ->]; [|done].
  by rewrite <- (Byte.of_to_N a), <- (Byte.of_to_N b), Heq.
Qed.

Lemma byte_to_Q_inj (a b : byte) : byte_to_Q a = byte_to_Q b → a = b.
Proof. unfold byte_to_Q, inject_Z. intros [= Heq]. by apply byte_value_inj. Qed.

Lemma divide_255_inj (x y : Q) : (x / 255)%Q = (y / 255)%Q → x = y.
Proof.
  destruct x as [a b], y as [c d]. unfold Qdiv, Qmult, Qinv. cbn.
  intros [= Hn Hd]. f_equal; lia.
Qed.

Lemma preprocess_inj (p1 p2 : PILImage) :
  scale_255 (np_expand_dims (img_to_array p1))
  = scale_255 (np_expand_dims (img_to_array p2)) →
  p1 = p2.
Proof.
  unfold scale_255, np_expand_dims, img_to_array. cbn. intros [= Heq].
  apply map_inj_eq in Heq; [|intros ??; apply map_inj_eq, map_inj_eq, divide_255_inj].
  revert Heq. apply map_inj_eq. intros ??. apply map_inj_eq.
  intros [[r1 g1] b1] [[r2 g2] b2] [= Hr Hg Hb].
  by rewrite (byte_value_inj _ _ Hr), (byte_value_inj _ _ Hg), (byte_value_inj _ _ Hb).
Qed.

(** A second run, started where the first ended, leaves the files as the
    first left them. *)
Lemma rerun_leaves_files (model : Model) (img_array : Tensor4)
    (class_index : nat) (img_size : nat * nat) (g : globals) (w : world) :
  let run1 := generate_saliency_map model img_array class_index img_size g w in
  let run2 := generate_saliency_map model img_array class_index img_size g run1.2 in
  run2.1 = run1.1 ∧ files run2.2 = files run1.2.
Proof.
  cbn zeta.
  destruct (render_composite model img_array class_index img_size g)
    as [e|composite] eqn:Hr.
  - by rewrite !(generate_saliency_map_raise _ _ _ _ _ _ _ Hr).
  - rewrite !(generate_saliency_map_return _ _ _ _ _ _ _ Hr). cbn [fst snd].
    split; [done|].
    destruct (save_composite_effect composite g w) as (_ & Hf1 & _).
    destruct (save_composite_effect composite g (save_composite composite g w).2)
      as (_ & Hf2 & _).
    rewrite Hf2, Hf1. apply map_eq. intros path.
    destruct (decide (path = "saliency_maps/" +:+ name (uploaded_file g))) as [->|Hne].
    { by rewrite !lookup_insert_eq. }
    rewrite !(lookup_insert_ne _ ("saliency_maps/" +:+ name (uploaded_file g))) by done.
    destruct (decide (path = os_path_join output_dir (name (uploaded_file g)))) as [->|Hne'].
    { by rewrite !lookup_insert_eq. }
    rewrite !(lookup_insert_ne _ (os_path_join output_dir (name (uploaded_file g)))) by done.
    by rewrite !lookup_insert_ne.
Qed.

Lemma generate_saliency_map_outcome (model : Model) (img_array : Tensor4)
    (class_index : nat) (img_size : nat * nat) (g : globals) (w : world) :
  (generate_saliency_map model img_array class_index img_size g w).1
  = render_composite model img_array class_index img_size g.
Proof.
  destruct (render_composite model img_array class_index img_size g)
    as [e|composite] eqn:Hr.
  - by rewrite (generate_saliency_map_raise _ _ _ _ _ _ _ Hr).
  - by rewrite (generate_saliency_map_return _ _ _ _ _ _ _ Hr).
Qed.


(** *** No upload is answered *)

Lemma raises_bind_l {A B} (m : App A) (f : A → App B) : raises m → raises (m ≫= f).
Proof.
  intros Hm w. destruct (Hm w) as [e He]. exists e.
  unfold mbind, app_bind. destruct (m w) as [[e'|a] w']; cbn in *; congruence.
Qed.

Lemma raises_bind_r {A B} (m : App A) (f : A → App B) :
  (∀ a, raises (f a)) → raises (m ≫= f).
Proof.
  intros Hf w. unfold mbind, app_bind. destruct (m w) as [[e|a] w']; [by exists e|].
  apply Hf.
Qed.

Lemma raises_generate_saliency_map (model : Model) (img_array : Tensor4)
    (class_index : nat) (img_size : nat * nat) (g : globals) :
  image_other "image_to_array" = None →
  raises (generate_saliency_map model img_array class_index img_size g).
Proof.
  intros Hnone w.
  destruct (render_composite_raises model img_array class_index img_size g Hnone)
    as (e & He & _).
  exists e. by rewrite (generate_saliency_map_raise _ _ _ _ _ _ _ He).
Qed.

(** Without [image.image_to_array] the handling of an upload never reaches
    the two pictures, the chart or the explanation (lines 218-230). *)
Lemma handle_upload_raises (file : UploadedFile) (selected_model : string)
    (cnn_path xception_path : string) :
  image_other "image_to_array" = None →
  raises (handle_upload file selected_model cnn_path xception_path).
Proof.
  intros Hnone. unfold handle_upload.
  apply raises_bind_r. intros model.
  apply raises_bind_r. intros [picture img_array].
  apply raises_bind_r. intros prediction0.
  apply raises_bind_r. intros [class_index result].
  apply raises_bind_r. intros _.
  apply raises_bind_r. intros _.
  apply raises_bind_r. intros _.
  apply raises_bind_l. by apply raises_generate_saliency_map.
Qed.

Lemma script_raises_on_upload (file : UploadedFile) (selected_model : string) :
  image_other "image_to_array" = None →
  raises (script (Some file) selected_model).
Proof.
  intros Hnone. unfold script.
  apply raises_bind_r. intros [cnn xception]. by apply handle_upload_raises.
Qed.

(** *** The reported label on the page *)

Lemma appends_generate_saliency_map (model : Model) (img_array : Tensor4)
    (class_index : nat) (img_size : nat * nat) (g : globals) :
  appends (generate_saliency_map model img_array class_index img_size g).
Proof.
  unfold generate_saliency_map, save_composite.
  apply appends_bind; [apply appends_lift|]. intros composite.
  apply appends_bind; [|intros _; apply appends_ret].
  apply appends_bind; [apply appends_write_file|]. intros _. apply appends_write_file.
Qed.

Lemma appends_generate_explanation (img_path model_prediction : string)
    (confidence : Q) :
  appends (generate_explanation img_path model_prediction confidence).
Proof.
  unfold generate_explanation.
  apply appends_bind; [apply appends_read_file|]. intros picture. apply appends_lift.
Qed.

(** C1. Let the chosen classifier load, the upload decode, and the
    classifier answer with a vector [prediction0] of length 4. Then the
    page shows, as the first thing after startup, the line
    "Predicted Class: <label>" where <label> is the entry of
    ['Glioma', 'Meningioma', 'No Tumor', 'Pituitary'] at the argmax index
    of [prediction0]: the first index that holds the largest value. This
    stays on the page whatever the later steps do. *)
Theorem reported_label_is_argmax (file : UploadedFile) (selected_model : string)
    (w : world) (model : Model) (picture : PILImage) (img_array : Tensor4)
    (prediction0 : Array1) :
  (if String.eqb selected_model xception_choice
   then load_xception_model xception_path
   else load_model cnn_path) w = (inr model, w) →
  preprocess file (img_size_of selected_model) = inr (picture, img_array) →
  model_predict model img_array !! 0%nat = Some prediction0 →
  length prediction0 = 4%nat →
  ∃ class_index result best later,
    ["Glioma"; "Meningioma"; "No Tumor"; "Pituitary"] !! class_index = Some result ∧
    prediction0 !! class_index = Some best ∧
    (∀ j x, prediction0 !! j = Some x → (x <= best)%Q) ∧
    (∀ j x, (j < class_index)%nat → prediction0 !! j = Some x → (x < best)%Q) ∧
    trace (handle_upload file selected_model cnn_path xception_path w).2
    = trace w ++ StWrite ("Predicted Class: " +:+ result) :: later.
Proof.
  intros Hload Hpre Hrow Hlen.
  destruct (predicted_class_spec prediction0 Hlen)
    as (class_index & result & best & Hclass & Hlabel & Hbest & Hle & Hlt).
  exists class_index, result, best.
  unfold handle_upload.
  rewrite (app_bind_inr _ _ _ _ _ Hload).
  rewrite Hpre, lift_bind_inr. cbv beta iota zeta.
  rewrite (index_Some _ _ _ Hrow), lift_bind_inr.
  rewrite Hclass, lift_bind_inr. cbv beta iota zeta.
  rewrite emit_bind.
  match goal with
  | |- context [trace (?rest ?w1).2] =>
      assert (appends rest) as Hrest; [|destruct (Hrest w1) as [later Hlater]]
  end.
  { apply appends_bind; [apply appends_emit|]. intros _.
    apply appends_bind; [apply appends_for_each; intros [label prob]; apply appends_emit|].
    intros _.
    apply appends_bind; [apply appends_generate_saliency_map|]. intros saliency_map.
    apply appends_bind; [apply appends_emit|]. intros _.
    apply appends_bind; [apply appends_emit|]. intros _.
    apply appends_bind; [apply appends_emit|]. intros _.
    apply appends_bind; [apply appends_lift|]. intros confidence.
    apply appends_bind; [apply appends_generate_explanation|]. intros explanation.
    apply appends_bind; [apply appends_emit|]. intros _. apply appends_emit. }
  exists later. repeat split; try done.
  rewrite Hlater. cbn. by rewrite <- app_assoc.
Qed.

(** ** Further properties of the code *)

(** *** Confidence chart *)

(** X1. [generate_confidence_graph] draws one bar and one text per entry
    of its argument, at 100 times the entry, against the four fixed labels
    and four fixed colours; the bars match the labels in number exactly when
    the argument has length 4 (the function does not check it). For
    probabilities, that is entries of [0, 1], every bar lies within the
    pinned axis range [0, 100]. *)
Theorem confidence_graph_bars (predictions : Array1) :
  Forall (λ p, (0 <= p <= 1)%Q) predictions →
  let fig := generate_confidence_graph predictions in
  bar_x fig = ["Glioma"; "Meningioma"; "No Tumor"; "Pituitary"] ∧
  length (marker_color fig) = 4%nat ∧
  length (bar_y fig) = length predictions ∧
  length (bar_text fig) = length predictions ∧
  (length (bar_x fig) = length (bar_y fig) ↔ length predictions = 4%nat) ∧
  (∀ i p, predictions !! i = Some p →
     bar_y fig !! i = Some (p * 100)%Q ∧
     bar_text fig !! i = Some (format_fixed 1 (p * 100)%Q +:+ "%")) ∧
  Forall (λ v, (inject_Z (yaxis_range fig).1 <= v <= inject_Z (yaxis_range fig).2)%Q)
         (bar_y fig).
Proof.
  intros Hprob. cbn zeta. unfold generate_confidence_graph. cbn [bar_x bar_y bar_text marker_color yaxis_range fst snd].
  split; [done|]. split; [done|].
  rewrite !length_fmap. split; [done|]. split; [done|].
  split; [cbn; split; intros; congruence|]. split.
  - intros i p Hp. rewrite !list_lookup_fmap, Hp. done.
  - apply Forall_fmap. eapply Forall_impl; [exact Hprob|].
    intros p [Hp0 Hp1]. cbn.
    change (inject_Z 0) with 0%Q. change (inject_Z 100) with 100%Q. split; lra.
Qed.

(** *** Label lookup on malformed vectors *)

(** X2. Lines 208-209 on any vector: an empty one makes [np.argmax] raise
    [ValueError]; a vector whose first largest entry sits at index 4 or
    beyond makes [labels[class_index]] raise [IndexError]; in every other
    case the result is the argmax index, below 4, with its label. *)
Theorem predicted_class_outcomes (prediction0 : Array1) :
  match predicted_class prediction0 with
  | inr (class_index, result) =>
      np_argmax prediction0 = inr class_index ∧ (class_index < 4)%nat ∧
      labels !! class_index = Some result
  | inl e =>
      (prediction0 = [] ∧
       e = ValueError "attempt to get argmax of an empty sequence") ∨
      (∃ class_index, np_argmax prediction0 = inr class_index ∧
                      (4 <= class_index)%nat ∧
                      e = IndexError "index out of range")
  end.
Proof.
  unfold predicted_class. destruct prediction0 as [|x v]; [by left|].
  cbn [np_argmax]. cbn [mbind result_bind].
  set (i := argmax_from x 0 1 v). unfold index.
  destruct (labels !! i) as [result|] eqn:Hl; cbn.
  - split; [done|]. split; [|done]. by apply lookup_lt_Some in Hl.
  - right. exists i. split; [done|]. split; [|done].
    by apply lookup_ge_None in Hl.
Qed.

(** *** The list of probabilities *)

(** X3. The loop of lines 213-214 writes one line per pair of
    [zip(labels, prediction[0])], in label order, and nothing else: as many
    lines as the shorter of the two sequences has entries, so the entries of
    a vector past the fourth are dropped without notice. *)
Theorem probabilities_listed (prediction0 : Array1) (w : world) :
  let line := λ '(label, prob), StWrite (label +:+ ": " +:+ format_fixed 4 prob) in
  for_each (λ '(label, prob), emit (StWrite (label +:+ ": " +:+ format_fixed 4 prob)))
           (zip labels prediction0) w
  = (inr (), World (environ w) (dotenv w) (secrets w) (files w) (dirs w)
               (trace w ++ (line <$> zip labels prediction0))) ∧
  length (line <$> zip labels prediction0) = Nat.min 4 (length prediction0).
Proof.
  cbn zeta. split.
  - generalize (zip labels prediction0). intros l. revert w.
    induction l as [|[label prob] l IH]; intros w.
    + cbn. rewrite app_nil_r. by destruct w.
    + cbn [for_each]. rewrite emit_bind, IH. cbn. by rewrite <- app_assoc.
  - rewrite length_fmap, length_zip. done.
Qed.

(** *** Gradient magnitude *)

Lemma mapM_inr {A B} (f : A → exn + B) (l : list A) (k : list B) :
  mapM f l = inr k → Forall2 (λ x y, f x = inr y) l k.
Proof.
  revert k. induction l as [|x l IH]; intros k; cbn.
  - intros [= <-]. constructor.
  - destruct (f x) as [e|y] eqn:Hx; cbn; [done|].
    destruct (mapM f l) as [e|k'] eqn:Hl; cbn; [done|].
    intros [= <-]. constructor; [done|]. by apply IH.
Qed.

(** X4. Lines 63-64, [tf.math.abs] then [tf.reduce_max(axis=-1)]: when
    the reduction goes through, the value kept for a pixel is the absolute
    value of one of its channel gradients, it is at least the absolute value
    of each of them, and it is not negative. *)
Theorem gradient_magnitude (t : Tensor4) (r : list Array2) :
  reduce_max_channels t = inr r →
  length r = length t ∧
  ∀ n i j px, at3 t n i j = Some px →
    ∃ v, at3 r n i j = Some v ∧ (0 <= v)%Q ∧
         (∀ c, c ∈ px → (Qabs c <= v)%Q) ∧
         (∃ c, c ∈ px ∧ v = Qabs c).
Proof.
  intros Hr. unfold reduce_max_channels in Hr. apply mapM_inr in Hr.
  split; [symmetry; by eapply Forall2_length|].
  intros n i j px Hpx. unfold at3, at2 in *.
  destruct (t !! n) as [a|] eqn:Ha; [|done]. cbn in Hpx.
  destruct (a !! i) as [row|] eqn:Hrow; [|done]. cbn in Hpx.
  destruct (Forall2_lookup_l _ _ _ _ _ Hr Ha) as (a' & Ha' & Haa%mapM_inr).
  destruct (Forall2_lookup_l _ _ _ _ _ Haa Hrow) as (row' & Hrow' & Hrr%mapM_inr).
  destruct (Forall2_lookup_l _ _ _ _ _ Hrr Hpx) as (v & Hv & Hmax).
  rewrite Ha'. cbn. rewrite Hrow'. cbn. exists v. split; [done|].
  destruct (np_max_spec _ _ Hmax) as [Hin Hle].
  apply list_elem_of_fmap in Hin as (c & -> & Hc).
  split; [apply Qabs_nonneg|]. split.
  - intros c' Hc'. apply Hle. by apply list_elem_of_fmap_2.
  - by exists c.
Qed.

(** *** A margin that is never highlighted *)

(** X5. On a square image of side 20 or more the circular mask leaves out
    the first ten rows and columns and the last nine: whatever the gradient
    there, these pixels are not in the region of interest. *)
Theorem mask_excludes_margin (size i j : nat) :
  (20 <= size)%nat → (i < size)%nat → (j < size)%nat →
  (i < 10 ∨ j < 10 ∨ size - 9 <= i ∨ size - 9 <= j)%nat →
  at2 (circular_mask (size, size)) i j = Some false.
Proof.
  intros Hsize Hi Hj Hmargin.
  rewrite circular_mask_lookup by done. f_equal.
  unfold in_circle, radius, center. cbn [fst snd].
  apply Z.leb_gt.
  pose proof (Z.div_mod (Z.of_nat size) 2 ltac:(lia)) as Hdiv.
  pose proof (Z.mod_pos_bound (Z.of_nat size) 2 ltac:(lia)) as Hmod.
  set (c := (Z.of_nat size / 2)%Z) in *.
  rewrite Z.min_id.
  destruct Hmargin as [H|[H|[H|H]]]; nia.
Qed.

(** The shape of what lines 69-83 return. *)
Lemma saliency_core_shape (gradients out : Array2) :
  saliency_core gradients = inr out →
  ∃ f threshold,
    normalize_in_mask gradients (circular_mask (shape2 gradients))
      = inr (map_where f (circular_mask (shape2 gradients))
               (np_multiply_mask gradients (circular_mask (shape2 gradients)))) ∧
    out = zero_below threshold
            (map_where f (circular_mask (shape2 gradients))
               (np_multiply_mask gradients (circular_mask (shape2 gradients)))).
Proof.
  unfold saliency_core. cbn zeta.
  set (mask := circular_mask (shape2 gradients)). intros Hcore.
  destruct (boolean_index (np_multiply_mask gradients mask) mask) as [|b l] eqn:Hb.
  { unfold normalize_in_mask in Hcore. by rewrite Hb in Hcore. }
  destruct (normalize_in_mask_defined gradients mask) as [f Hf].
  { by rewrite Hb. }
  rewrite Hf in Hcore. cbn in Hcore. unfold threshold_top in Hcore.
  destruct (np_percentile _ _) as [e|t]; [done|]. cbn in Hcore.
  injection Hcore as <-. by exists f, t.
Qed.

(** X6. After lines 69-83 every pixel outside the mask holds zero,
    whatever its gradient was. *)
Theorem outside_mask_is_zero (gradients out : Array2) (i j : nat) (x : Q) :
  saliency_core gradients = inr out →
  at2 (circular_mask (shape2 gradients)) i j = Some false →
  at2 gradients i j = Some x →
  ∃ y, at2 out i j = Some y ∧ (y == 0)%Q.
Proof.
  intros Hcore Hmask Hx.
  destruct (saliency_core_shape _ _ Hcore) as (f & t & _ & ->).
  rewrite zero_below_lookup, map_where_lookup, Hmask.
  rewrite np_multiply_mask_lookup, Hx, Hmask. cbn.
  destruct (Qlt_bool (x * 0) t); eexists; (split; [done|]); lra.
Qed.

(** X7. When the gradients inside the mask are not all equal, every entry
    of the image that lines 69-83 return lies in [0, 1]: normalised inside
    the mask, zero outside, and zero or unchanged after the threshold. *)
Theorem saliency_core_range (gradients out : Array2) (mx mn : Q) :
  let mask := circular_mask (shape2 gradients) in
  let brain_gradients := boolean_index (np_multiply_mask gradients mask) mask in
  saliency_core gradients = inr out →
  np_max brain_gradients = inr mx →
  np_min brain_gradients = inr mn →
  (mn < mx)%Q →
  ∀ i j y, at2 out i j = Some y → (0 <= y <= 1)%Q.
Proof.
  intros mask brain_gradients Hcore Hmx Hmn Hlt i j y Hy.
  destruct (saliency_core_shape _ _ Hcore) as (f & t & Hf & ->). fold mask in Hf, Hy.
  assert (normalize_in_mask gradients mask
          = inr (map_where (λ x, (x - mn) / (mx - mn))%Q mask
                   (np_multiply_mask gradients mask))) as Hg.
  { unfold normalize_in_mask. fold brain_gradients.
    rewrite (normalize_brain_spread mx mn _ Hmx Hmn Hlt). cbn.
    apply boolean_assign_map. }
  rewrite Hg in Hf. injection Hf as Hf. rewrite <- Hf in Hy. clear Hcore Hf f.
  rewrite zero_below_lookup, map_where_lookup, np_multiply_mask_lookup in Hy.
  destruct (np_max_spec _ _ Hmx) as [_ Hle]. destruct (np_min_spec _ _ Hmn) as [_ Hge].
  destruct (at2 gradients i j) as [x|] eqn:Hx;
    [|by destruct (at2 mask i j) as [[]|]].
  destruct (at2 mask i j) as [[]|] eqn:Hm; cbn in Hy; [| |done].
  - assert ((x * 1)%Q ∈ brain_gradients) as Hin.
    { apply boolean_index_elem with i j; [done|].
      by rewrite np_multiply_mask_lookup, Hx, Hm. }
    pose proof (normalized_range _ mn mx (Hge _ Hin) (Hle _ Hin) Hlt) as Hrange.
    destruct (Qlt_bool _ t); injection Hy as <-; [lra|done].
  - destruct (Qlt_bool _ t); injection Hy as <-; lra.
Qed.

(** *** Bytes of the heat map *)

Lemma np_uint8_small (q : Q) :
  (0 <= q <= 255)%Q → np_uint8 q = Qfloor q ∧ (0 <= Qfloor q <= 255)%Z.
Proof.
  intros [Hq0 Hq255].
  assert (0 <= Qfloor q <= 255)%Z as Hfloor.
  { split.
    - change 0%Z with (Qfloor 0). by apply Qfloor_resp_le.
    - change 255%Z with (Qfloor 255). by apply Qfloor_resp_le. }
  split; [|done].
  assert (Qtrunc q = Qfloor q) as Htrunc.
  { destruct q as [n d]. unfold Qtrunc, Qfloor. cbn.
    apply Z.quot_div_nonneg; [|lia]. unfold Qle in Hq0. cbn in Hq0. lia. }
  unfold np_uint8. rewrite Htrunc. apply Z.mod_small. lia.
Qed.

(** X8. Line 87, [np.uint8(255 * gradients)], on an image with entries in
    [0, 1]: each byte is the integer part of 255 times the entry, no byte
    wraps around, and a larger entry never gets a smaller byte. *)
Theorem heat_bytes_monotone (g : Array2) :
  Forall (Forall (λ x, (0 <= x <= 1)%Q)) g →
  ∀ i j x, at2 g i j = Some x →
    at2 (to_uint8_255 g) i j = Some (Qfloor (255 * x)) ∧
    (0 <= Qfloor (255 * x) <= 255)%Z ∧
    ∀ i' j' x', at2 g i' j' = Some x' → (x <= x')%Q →
      ∃ b b', at2 (to_uint8_255 g) i j = Some b ∧
              at2 (to_uint8_255 g) i' j' = Some b' ∧ (b <= b')%Z.
Proof.
  intros Hrange.
  assert (∀ i j x, at2 g i j = Some x →
            at2 (to_uint8_255 g) i j = Some (Qfloor (255 * x)) ∧
            (0 <= Qfloor (255 * x) <= 255)%Z) as Hbyte.
  { intros i j x Hx. unfold at2, to_uint8_255 in *. rewrite list_lookup_fmap.
    destruct (g !! i) as [row|] eqn:Hrow; [|done]. cbn in *.
    rewrite list_lookup_fmap, Hx. cbn.
    assert (0 <= x <= 1)%Q as [Hx0 Hx1].
    { rewrite Forall_forall in Hrange.
      pose proof (Hrange row (list_elem_of_lookup_2 _ _ _ Hrow)) as Hr.
      rewrite Forall_forall in Hr. apply Hr. by eapply list_elem_of_lookup_2. }
    destruct (np_uint8_small (255 * x)) as [-> Hb]; [split; lra|]. done. }
  intros i j x Hx. destruct (Hbyte i j x Hx) as [Hb Hr]. split; [done|]. split; [done|].
  intros i' j' x' Hx' Hle. destruct (Hbyte i' j' x' Hx') as [Hb' _].
  exists (Qfloor (255 * x)), (Qfloor (255 * x')). split; [done|]. split; [done|].
  apply Qfloor_resp_le. lra.
Qed.

(** *** Colour order *)

Lemma swap_channels_twice (px : list Z) : swap_channels (swap_channels px) = px.
Proof. by destruct px as [|c0 [|c1 [|c2 [|c3 px]]]]. Qed.

(** X9. On an image of three channels, the conversion of line 88 (BGR to
    RGB) and the one of line 101 (RGB to BGR) are the same exchange of the
    first and the third channel: each keeps the shape and the middle
    channel, and the two undo each other. *)
Theorem cvtColor_round_trip (a : U8Array3) :
  Forall (Forall (λ px, length px = 3)) a →
  cv2_cvtColor_swap (cv2_cvtColor_swap a) = a ∧
  same_shape3 (cv2_cvtColor_swap a) a ∧
  ∀ i j,
    at3 (cv2_cvtColor_swap a) i j 0 = at3 a i j 2 ∧
    at3 (cv2_cvtColor_swap a) i j 1 = at3 a i j 1 ∧
    at3 (cv2_cvtColor_swap a) i j 2 = at3 a i j 0.
Proof.
  intros Hthree. unfold cv2_cvtColor_swap, same_shape3. split; [|split].
  - rewrite map_map. rewrite <- (map_id a) at 2. apply map_ext. intros row.
    rewrite map_map. rewrite <- (map_id row) at 2. apply map_ext.
    apply swap_channels_twice.
  - apply Forall2_fmap_l, Forall_Forall2_diag, Forall_forall. intros row _.
    apply Forall2_fmap_l, Forall_Forall2_diag, Forall_forall. intros px _.
    by destruct px as [|c0 [|c1 [|c2 [|c3 px]]]].
  - intros i j. unfold at3, at2.
    change (map (map swap_channels) a) with (fmap (M:=list) (map swap_channels) a).
    rewrite list_lookup_fmap.
    destruct (a !! i) as [row|] eqn:Hrow; [|done]. cbn.
    change (map swap_channels row) with (swap_channels <$> row).
    rewrite list_lookup_fmap.
    destruct (row !! j) as [px|] eqn:Hpx; [|done]. cbn.
    rewrite Forall_forall in Hthree.
    pose proof (Hthree row (list_elem_of_lookup_2 _ _ _ Hrow)) as Hpixels.
    rewrite Forall_forall in Hpixels.
    pose proof (Hpixels px (list_elem_of_lookup_2 _ _ _ Hpx)) as Hlen.
    by destruct px as [|c0 [|c1 [|c2 [|c3 px]]]].
Qed.

(** *** Where the two files go *)

Lemma absolute_name_differs (file_name : string) :
  file_name ≠ "saliency_maps/" +:+ file_name.
Proof.
  intros Heq. apply (f_equal String.length) in Heq.
  cbv [String.append] in Heq. cbn [String.length] in Heq. lia.
Qed.



(** *** What the explainer is sent *)


(** *** The cache of weight files *)

Lemma download_models_run (w : world) :
  download_models w =
    (inr ("models/cnn_model.h5", "models/xception_model.weights.h5"),
     World (environ w) (dotenv w) (secrets w)
       (fetch_if_missing w "models/xception_model.weights.h5"
          "10tcxflFgOtgrTXDR_fMj_3Dr4oM_rbsm"
          (fetch_if_missing w "models/cnn_model.h5"
             "1x9t4iiOryE2jNJ8OCcWgkbNe17YXlPnU" (files w)))
       ({["models"]} ∪ dirs w)
       (trace w ++ Makedirs "models" ::
          fetch_events w "models/cnn_model.h5" "1x9t4iiOryE2jNJ8OCcWgkbNe17YXlPnU"
            "Downloading CNN model..." ++
          fetch_events w "models/xception_model.weights.h5"
            "10tcxflFgOtgrTXDR_fMj_3Dr4oM_rbsm" "Downloading Xception model...")).
Proof.
  unfold download_models, cnn_path, xception_path, mbind, app_bind,
    os_makedirs, os_path_exists, emit, gdown_download, mret, app_ret,
    fetch_if_missing, fetch_events, drive_url. cbn.
  rewrite exists_after_makedirs by done.
  destruct (decide (path_exists w "models/cnn_model.h5")) as [Hc|Hc];
    [rewrite (bool_decide_eq_true_2 _ Hc)|rewrite (bool_decide_eq_false_2 _ Hc)]; cbn.
  all: try rewrite exists_after_other_download by done.
  all: try rewrite exists_after_makedirs by done.
  all: destruct (decide (path_exists w "models/xception_model.weights.h5")) as [Hx|Hx];
    [rewrite (bool_decide_eq_true_2 _ Hx)|rewrite (bool_decide_eq_false_2 _ Hx)]; cbn.
  all: by rewrite <- ?app_assoc.
Qed.

Lemma exists_after_fetch (w : world) (path file_id other other_id : string) :
  path ∈ dom (fetch_if_missing w other other_id
                (fetch_if_missing w path file_id (files w)))
  ∨ path ∈ dirs w.
Proof.
  unfold fetch_if_missing.
  destruct (decide (path_exists w path)) as [He|He].
  - rewrite (bool_decide_eq_true_2 _ He). destruct He as [He|He]; [left|by right].
    case_bool_decide; [done|]. rewrite dom_insert_L. set_solver.
  - rewrite (bool_decide_eq_false_2 _ He). left.
    case_bool_decide; rewrite ?dom_insert_L; set_solver.
Qed.



(** *** What a failed upload leaves behind *)

Lemma quiet_ret {A} (P : event → Prop) (a : A) : quiet P (mret a : App A).
Proof. intros w. exists []. cbn. by rewrite app_nil_r. Qed.

Lemma quiet_lift {A} (P : event → Prop) (r : exn + A) : quiet P (lift r).
Proof. intros w. exists []. cbn. by rewrite app_nil_r. Qed.

Lemma quiet_emit (P : event → Prop) (e : event) : P e → quiet P (emit e).
Proof. intros He w. exists [e]. cbn. by repeat constructor. Qed.

Lemma quiet_read_file (P : event → Prop) (path : string) : quiet P (read_file path).
Proof.
  intros w. exists []. unfold read_file.
  destruct (files w !! path); cbn; by rewrite app_nil_r.
Qed.

Lemma quiet_bind {A B} (P : event → Prop) (m : App A) (f : A → App B) :
  quiet P m → (∀ a, quiet P (f a)) → quiet P (m ≫= f).
Proof.
  intros Hm Hf w. unfold mbind, app_bind.
  destruct (Hm w) as (evs1 & H1 & HP1 & Hf1). destruct (m w) as [[e|a] w1]; cbn in *.
  - by exists evs1.
  - destruct (Hf a w1) as (evs2 & H2 & HP2 & Hf2). exists (evs1 ++ evs2).
    rewrite H2, H1, app_assoc, Hf2, Hf1. split; [done|]. split; [|done].
    by apply Forall_app.
Qed.

Lemma quiet_bind_raises {A B} (P : event → Prop) (m : App A) (f : A → App B) :
  quiet P m → raises m → quiet P (m ≫= f).
Proof.
  intros Hm Hr w. unfold mbind, app_bind.
  destruct (Hm w) as (evs & H1 & HP & Hf). destruct (Hr w) as [e He].
  destruct (m w) as [[e'|a] w1]; cbn in *; [|done]. by exists evs.
Qed.

Lemma quiet_for_each {A} (P : event → Prop) (body : A → App ()) (l : list A) :
  (∀ x, quiet P (body x)) → quiet P (for_each body l).
Proof.
  intros Hbody. induction l as [|x l IH]; cbn.
  - apply quiet_ret.
  - apply quiet_bind; [apply Hbody|]. intros _. exact IH.
Qed.

Lemma quiet_generate_saliency_map (P : event → Prop) (model : Model)
    (img_array : Tensor4) (class_index : nat) (img_size : nat * nat) (g : globals) :
  image_other "image_to_array" = None →
  quiet P (generate_saliency_map model img_array class_index img_size g).
Proof.
  intros Hnone w.
  destruct (render_composite_raises model img_array class_index img_size g Hnone)
    as (e & He & _).
  rewrite (generate_saliency_map_raise _ _ _ _ _ _ _ He). exists []. cbn.
  by rewrite app_nil_r.
Qed.


(** *** Bytes of the composite *)

Lemma img_to_array_entry (picture : PILImage) (i j k : nat) (o : Q) :
  at3 (img_to_array picture) i j k = Some o → (0 <= o <= 255)%Q.
Proof.
  unfold at3, at2, img_to_array. rewrite list_lookup_fmap.
  destruct (picture !! i) as [row|]; [|done]. cbn. rewrite list_lookup_fmap.
  destruct (row !! j) as [[[r g] b]|]; [|done]. cbn.
  destruct k as [|[|[|k]]]; cbn; intros [= <-]; apply byte_to_Q_range.
Qed.


End App.

(** ** Worked examples *)

(** [reported_label_is_argmax] on a grey 224x224 upload with the custom CNN
    chosen and a classifier that answers (0.1, 0.7, 0.15, 0.05). *)
Lemma reported_label_is_argmax_witness :
  (if String.eqb "Custom CNN" xception_choice
   then load_xception_model unit toy_load xception_path
   else load_model unit toy_load cnn_path) ready_world = (inr (), ready_world) ∧
  preprocess toy_load_img keras_image_other scan_png (img_size_of "Custom CNN")
    = inr (grey_picture 224,
           scale_255 (np_expand_dims (img_to_array (grey_picture 224)))) ∧
  toy_predict () (scale_255 (np_expand_dims (img_to_array (grey_picture 224)))) !! 0%nat
    = Some [0.1; 0.7; 0.15; 0.05]%Q ∧
  length [0.1; 0.7; 0.15; 0.05]%Q = 4%nat ∧
  ∃ class_index result best later,
    ["Glioma"; "Meningioma"; "No Tumor"; "Pituitary"] !! class_index = Some result ∧
    [0.1; 0.7; 0.15; 0.05]%Q !! class_index = Some best ∧
    (∀ j x, [0.1; 0.7; 0.15; 0.05]%Q !! j = Some x → (x <= best)%Q) ∧
    (∀ j x, (j < class_index)%nat → [0.1; 0.7; 0.15; 0.05]%Q !! j = Some x →
            (x < best)%Q) ∧
    trace (handle_upload unit toy_load toy_load toy_predict toy_gradient toy_load_img
             keras_image_other toy_resize toy_blur toy_colormap toy_resize_u8
             toy_imencode toy_generate_content toy_format scan_png "Custom CNN"
             cnn_path xception_path ready_world).2
    = trace ready_world ++ StWrite ("Predicted Class: " +:+ result) :: later.
Proof.
  assert ((if String.eqb "Custom CNN" xception_choice
           then load_xception_model unit toy_load xception_path
           else load_model unit toy_load cnn_path) ready_world = (inr (), ready_world))
    as Hload by (by vm_compute).
  split; [exact Hload|]. split; [reflexivity|]. split; [reflexivity|].
  split; [reflexivity|].
  exact (reported_label_is_argmax unit toy_load toy_load toy_predict toy_gradient
           toy_load_img keras_image_other toy_resize toy_blur toy_colormap
           toy_resize_u8 toy_imencode toy_generate_content toy_format scan_png
           "Custom CNN" ready_world () (grey_picture 224)
           (scale_255 (np_expand_dims (img_to_array (grey_picture 224))))
           [0.1; 0.7; 0.15; 0.05]%Q Hload eq_refl eq_refl eq_refl).
Defined.

Example meningioma_is_reported :
  predicted_class [0.1; 0.7; 0.15; 0.05]%Q = inr (1%nat, "Meningioma").
Proof. reflexivity. Qed.

Example first_maximum_wins :
  predicted_class [0.4; 0.1; 0.4; 0.1]%Q = inr (0%nat, "Glioma").
Proof. reflexivity. Qed.

(** [normalization_guard] on the 3x3 image 1..9: maximum 9, minimum 1. *)
Lemma normalization_guard_witness :
  np_max (boolean_index (np_multiply_mask toy_gradients (circular_mask (3, 3)%nat))
                        (circular_mask (3, 3)%nat)) = inr 9%Q ∧
  np_min (boolean_index (np_multiply_mask toy_gradients (circular_mask (3, 3)%nat))
                        (circular_mask (3, 3)%nat)) = inr 1%Q ∧
  ∃ out,
    normalize_in_mask toy_gradients (circular_mask (3, 3)%nat) = inr out ∧
    ∀ i j x, at2 (circular_mask (3, 3)%nat) i j = Some true →
             at2 toy_gradients i j = Some x →
             at2 out i j = Some ((x - 1) / (9 - 1))%Q ∧
             (0 <= (x - 1) / (9 - 1) <= 1)%Q.
Proof.
  split; [reflexivity|]. split; [reflexivity|].
  destruct (normalization_guard toy_gradients (circular_mask (3, 3)%nat) 9%Q 1%Q
              eq_refl eq_refl) as (out & Hout & Hspread & _).
  exists out. split; [exact Hout|].
  apply Hspread. reflexivity.
Defined.

Example normalization_spreads :
  normalize_in_mask toy_gradients (circular_mask (3, 3)%nat)
  = inr [[0 # 8; 1 # 8; 2 # 8]; [3 # 8; 4 # 8; 5 # 8]; [6 # 8; 7 # 8; 8 # 8]]%Q.
Proof. reflexivity. Qed.

Example normalization_skipped :
  normalize_in_mask flat_gradients (circular_mask (3, 3)%nat) = inr flat_gradients.
Proof. reflexivity. Qed.

(** [threshold_zeroes_below] on the 3x3 image 1..9: the percentile is 7.4. *)
Lemma threshold_zeroes_below_witness :
  np_percentile (boolean_index toy_gradients (circular_mask (3, 3)%nat)) 80%Q
    = inr toy_threshold ∧
  ∃ out,
    threshold_top toy_gradients (circular_mask (3, 3)%nat) = inr out ∧
    at2 out 0 0 = Some 0%Q ∧ at2 out 2 1 = Some 8%Q.
Proof.
  split; [reflexivity|].
  destruct (threshold_zeroes_below toy_gradients (circular_mask (3, 3)%nat)
              toy_threshold eq_refl) as (_ & out & Hout & Hcut).
  exists out. split; [exact Hout|]. split.
  - apply (Hcut 0%nat 0%nat 1%Q); reflexivity.
  - apply (Hcut 2%nat 1%nat 8%Q); [reflexivity|]. by vm_compute.
Defined.

Example percentile_of_nine : (toy_threshold == 7.4)%Q.
Proof. reflexivity. Qed.

Example thresholded :
  threshold_top toy_gradients (circular_mask (3, 3)%nat)
  = inr [[0; 0; 0]; [0; 0; 0]; [0; 8; 9]]%Q.
Proof. reflexivity. Qed.

(** [preprocess_shape_and_range] on a grey 224x224 upload. *)
Lemma preprocess_shape_and_range_witness :
  toy_load_img scan_png (img_size_of "Custom CNN") = inr (grey_picture 224) ∧
  rectangular (img_size_of "Custom CNN").1 (img_size_of "Custom CNN").2 (grey_picture 224) ∧
  ∃ img_array,
    preprocess toy_load_img keras_image_other scan_png (img_size_of "Custom CNN")
      = inr (grey_picture 224, img_array) ∧
    has_shape4 1 224 224 3 img_array ∧
    Forall4 (λ x, (0 <= x <= 1)%Q) img_array.
Proof.
  assert (rectangular (img_size_of "Custom CNN").1 (img_size_of "Custom CNN").2
            (grey_picture 224)) as Hrect.
  { apply (bool_decide_unpack _). by vm_compute. }
  split; [reflexivity|]. split; [exact Hrect|].
  destruct (preprocess_shape_and_range toy_load_img keras_image_other scan_png
              "Custom CNN" (grey_picture 224) eq_refl Hrect)
    as (img_array & Hpre & _ & Hcnn & Hrange).
  exists img_array. split; [exact Hpre|]. split; [|exact Hrange].
  apply Hcnn. discriminate.
Defined.

Example xception_size : img_size_of "Transfer Learning - Xception" = (299, 299)%nat.
Proof. reflexivity. Qed.

Example grey_pixel_scaled :
  (λ p, scale_255 (np_expand_dims (img_to_array p))) [[(x00, x80, xff)]]
  = [[[[0 / 255; 128 / 255; 255 / 255]]]]%Q.
Proof. reflexivity. Qed.

(** [mask_selects_pixels] on the 224x224 image of zeros. *)
Lemma mask_selects_pixels_witness :
  (224 = 224 ∨ 224 = 299)%nat ∧
  rectangular 224 224 (blank_gradients 224) ∧
  ∃ out, saliency_core (blank_gradients 224) = inr out.
Proof.
  assert (rectangular 224 224 (blank_gradients 224)) as Hrect.
  { apply (bool_decide_unpack _). by vm_compute. }
  split; [by left|]. split; [exact Hrect|].
  destruct (mask_selects_pixels 224 (blank_gradients 224) (or_introl eq_refl) Hrect)
    as (_ & _ & _ & _ & normalized & threshold & out & _ & _ & _ & Hcore).
  exists out. exact Hcore.
Defined.

(** The two regions of interest: radius 102 and 139 around the centre. *)
Example region_224 :
  radius (center (224, 224)%nat) = 102%Z ∧
  N.of_nat (length (filter (λ b, b = true) (mjoin (circular_mask (224, 224)%nat))))
  = 32681%N.
Proof. split; by vm_compute. Qed.

Example region_299 :
  radius (center (299, 299)%nat) = 139%Z ∧
  N.of_nat (length (filter (λ b, b = true) (mjoin (circular_mask (299, 299)%nat))))
  = 60669%N.
Proof. split; by vm_compute. Qed.

(** A picture too small for the margin of 10: the radius is negative, its
    square is not, and the mask still selects pixels. *)
Example region_3 :
  radius (center (3, 3)%nat) = (-9)%Z ∧
  circular_mask (3, 3)%nat = replicate 3 (replicate 3 true).
Proof. split; reflexivity. Qed.

(** [composite_never_returned] and [nothing_written] on a grey 224x224
    upload named scan.png, with module [image] as Keras has it. *)
Lemma composite_never_returned_witness :
  keras_image_other "image_to_array" = None ∧
  ∃ e,
    (generate_saliency_map unit toy_gradient keras_image_other toy_resize toy_blur
       toy_colormap toy_resize_u8 toy_imencode tt
       (scale_255 (np_expand_dims (img_to_array (grey_picture 224)))) 1
       (224, 224)%nat {| img := grey_picture 224; uploaded_file := scan_png |}
       empty_world).1 = inl e.
Proof.
  split; [reflexivity|].
  destruct (composite_never_returned unit toy_gradient keras_image_other toy_resize
              toy_blur toy_colormap toy_resize_u8 toy_imencode tt
              (scale_255 (np_expand_dims (img_to_array (grey_picture 224)))) 1
              (224, 224)%nat {| img := grey_picture 224; uploaded_file := scan_png |}
              empty_world eq_refl) as (e & He & _).
  exists e. exact He.
Defined.

Lemma nothing_written_witness :
  keras_image_other "image_to_array" = None ∧
  files (generate_saliency_map unit toy_gradient keras_image_other toy_resize toy_blur
           toy_colormap toy_resize_u8 toy_imencode tt
           (scale_255 (np_expand_dims (img_to_array (grey_picture 224)))) 1
           (224, 224)%nat {| img := grey_picture 224; uploaded_file := scan_png |}
           empty_world).2 = ∅.
Proof.
  split; [reflexivity|].
  destruct (nothing_written unit toy_gradient keras_image_other toy_resize
              toy_blur toy_colormap toy_resize_u8 toy_imencode tt
              (scale_255 (np_expand_dims (img_to_array (grey_picture 224)))) 1
              (224, 224)%nat {| img := grey_picture 224; uploaded_file := scan_png |}
              empty_world eq_refl) as (_ & Hfiles & _).
  exact Hfiles.
Defined.


(** The same call on a 3x3 picture, evaluated: line 91 raises. *)
Example saliency_map_raises :
  generate_saliency_map unit toy_gradient keras_image_other toy_resize toy_blur
    toy_colormap toy_resize_u8 toy_imencode tt
    (scale_255 (np_expand_dims (img_to_array toy_picture))) 1 (3, 3)%nat
    {| img := toy_picture; uploaded_file := scan_png |} empty_world
  = (inl (AttributeError "image_to_array"), empty_world).
Proof. reflexivity. Qed.

(** With [image_to_array] bound to the converter that line 202 uses, the
    call returns the blend and leaves one file, the encoded composite. *)
Example saliency_map_patched :
  generate_saliency_map unit toy_gradient patched_image_other toy_resize toy_blur
    toy_colormap toy_resize_u8 toy_imencode tt
    (scale_255 (np_expand_dims (img_to_array toy_picture))) 1 (3, 3)%nat
    {| img := toy_picture; uploaded_file := scan_png |} empty_world
  = (inr (replicate 3 (replicate 3 [128; 128; 128]%Z)),
     World ∅ ∅ ∅ {[ "saliency_maps/scan.png" := replicate 27 x80 ]} ∅
       [WriteFile "saliency_maps/scan.png" [x89; x50; x4e; x47];
        WriteFile "saliency_maps/scan.png" (replicate 27 x80)]).
Proof. by vm_compute. Qed.

Example key_from_environment :
  configure_api_key env_world = (inr (), configured "from-environment" env_world).
Proof. by vm_compute. Qed.

Example key_from_dotenv :
  configure_api_key dotenv_world = (inr (), configured "from-dotenv" dotenv_world).
Proof. by vm_compute. Qed.

Example key_from_secrets :
  configure_api_key secrets_world = (inr (), configured "from-secrets" secrets_world).
Proof. by vm_compute. Qed.

(** [api_key_resolution] where no key is set anywhere. *)
Lemma api_key_resolution_witness :
  environ (after_dotenv empty_world) !! "GOOGLE_API_KEY" = None ∧
  secrets empty_world !! "GOOGLE_API_KEY" = None ∧
  script unit toy_load toy_load toy_predict toy_gradient toy_load_img
    keras_image_other toy_resize toy_blur toy_colormap toy_resize_u8 toy_imencode
    toy_remote toy_generate_content toy_format (Some scan_png) "Custom CNN"
    empty_world
  = (inl (KeyError "GOOGLE_API_KEY"), after_dotenv empty_world).
Proof.
  split; [reflexivity|]. split; [reflexivity|].
  apply (api_key_resolution unit toy_load toy_load toy_predict toy_gradient
           toy_load_img keras_image_other toy_resize toy_blur toy_colormap
           toy_resize_u8 toy_imencode toy_remote toy_generate_content toy_format
           empty_world); reflexivity.
Defined.

Example one_download_when_one_is_cached :
  download_models toy_remote cached_cnn_world
  = (inr ("models/cnn_model.h5", "models/xception_model.weights.h5"),
     World ∅ ∅ ∅
       {[ "models/cnn_model.h5" := [x09];
          "models/xception_model.weights.h5" := [x02] ]}
       {[ "models" ]}
       [Makedirs "models"; Spinner "Downloading Xception model...";
        Download "https://drive.google.com/uc?id=10tcxflFgOtgrTXDR_fMj_3Dr4oM_rbsm"
                 "models/xception_model.weights.h5"]).
Proof. by vm_compute. Qed.

Example first_run_downloads_both :
  download_models toy_remote empty_world
  = (inr ("models/cnn_model.h5", "models/xception_model.weights.h5"),
     World ∅ ∅ ∅
       {[ "models/cnn_model.h5" := [x01];
          "models/xception_model.weights.h5" := [x02] ]}
       {[ "models" ]}
       [Makedirs "models"; Spinner "Downloading CNN model...";
        Download "https://drive.google.com/uc?id=1x9t4iiOryE2jNJ8OCcWgkbNe17YXlPnU"
                 "models/cnn_model.h5";
        Spinner "Downloading Xception model...";
        Download "https://drive.google.com/uc?id=10tcxflFgOtgrTXDR_fMj_3Dr4oM_rbsm"
                 "models/xception_model.weights.h5"]).
Proof. by vm_compute. Qed.

(** The whole script on a 224x224 upload with the custom CNN selected and
    both weight files cached: the label and the probabilities are shown,
    then line 91 raises; no picture, chart or explanation follows and
    nothing is written under [saliency_maps/]. *)
Example upload_ends_at_line_91 :
  script unit toy_load toy_load toy_predict toy_gradient toy_load_img
    keras_image_other toy_resize toy_blur toy_colormap toy_resize_u8 toy_imencode
    toy_remote toy_generate_content toy_format (Some scan_png) "Custom CNN"
    ready_world
  = (inl (AttributeError "image_to_array"),
     World {[ "GOOGLE_API_KEY" := "from-environment" ]} ∅ ∅
       {[ "models/cnn_model.h5" := [x01];
          "models/xception_model.weights.h5" := [x02] ]}
       {[ "models"; "saliency_maps" ]}
       [GenaiConfigure (Some "from-environment");
        Makedirs "saliency_maps"; StTitle "Brain Tumor Classification";
        StWrite "Upload an MRI scan to classify whether it contains a brain tumor.";
        Makedirs "models"; StWrite "Predicted Class: Meningioma";
        StWrite "Predictions:"; StWrite "Glioma: 0.0000";
        StWrite "Meningioma: 0.0000"; StWrite "No Tumor: 0.0000";
        StWrite "Pituitary: 0.0000"]).
Proof. by vm_compute. Qed.

(** A constant image: the 80th percentile is the common value, nothing is
    below it, and every pixel stays. *)
Example flat_image_keeps_everything :
  saliency_core flat_gradients = inr flat_gradients.
Proof. reflexivity. Qed.

(** ** Worked examples for the further properties *)

(** [confidence_graph_bars] on the four probabilities of the stand-in
    classifier. *)
Lemma confidence_graph_bars_witness :
  Forall (λ p, (0 <= p <= 1)%Q) [0.1; 0.7; 0.15; 0.05]%Q ∧
  bar_y (generate_confidence_graph toy_format [0.1; 0.7; 0.15; 0.05]%Q) !! 1%nat
    = Some (0.7 * 100)%Q ∧
  bar_text (generate_confidence_graph toy_format [0.1; 0.7; 0.15; 0.05]%Q) !! 1%nat
    = Some (toy_format 1 (0.7 * 100)%Q +:+ "%").
Proof.
  assert (Forall (λ p, (0 <= p <= 1)%Q) [0.1; 0.7; 0.15; 0.05]%Q) as Hprob.
  { repeat constructor; by vm_compute. }
  split; [exact Hprob|].
  destruct (confidence_graph_bars toy_format [0.1; 0.7; 0.15; 0.05]%Q Hprob)
    as (_ & _ & _ & _ & _ & Hbars & _).
  exact (Hbars 1%nat 0.7%Q eq_refl).
Defined.

(** [gradient_magnitude] on one pixel with a negative channel. *)
Lemma gradient_magnitude_witness :
  reduce_max_channels [[[[1; -3; 2]]]]%Q = inr [[[3]]]%Q ∧
  ∃ v, at3 [[[3]]]%Q 0 0 0 = Some v ∧ (Qabs (-3) <= v)%Q.
Proof.
  split; [reflexivity|].
  destruct (gradient_magnitude [[[[1; -3; 2]]]]%Q [[[3]]]%Q eq_refl) as [_ Hpx].
  destruct (Hpx 0%nat 0%nat 0%nat [1; -3; 2]%Q eq_refl) as (v & Hv & _ & Hall & _).
  exists v. split; [exact Hv|]. apply Hall. set_solver.
Defined.

(** [mask_excludes_margin] on a pixel of the fifth row at size 224. *)
Lemma mask_excludes_margin_witness :
  at2 (circular_mask (224, 224)%nat) 5 100 = Some false.
Proof. apply mask_excludes_margin; lia. Defined.

(** [outside_mask_is_zero] on a constant 20x20 image, whose region is the
    centre pixel alone. *)
Lemma outside_mask_is_zero_witness :
  saliency_core (replicate 20 (replicate 20 5%Q))
    = inr (<[10%nat := <[10%nat := 5%Q]> (replicate 20 0%Q)]>
             (replicate 20 (replicate 20 0%Q))) ∧
  at2 (circular_mask (shape2 (replicate 20 (replicate 20 5%Q)))) 0 0 = Some false ∧
  ∃ y, at2 (<[10%nat := <[10%nat := 5%Q]> (replicate 20 0%Q)]>
              (replicate 20 (replicate 20 0%Q))) 0 0 = Some y ∧ (y == 0)%Q.
Proof.
  assert (saliency_core (replicate 20 (replicate 20 5%Q))
          = inr (<[10%nat := <[10%nat := 5%Q]> (replicate 20 0%Q)]>
                   (replicate 20 (replicate 20 0%Q)))) as Hcore by (by vm_compute).
  split; [exact Hcore|]. split; [reflexivity|].
  exact (outside_mask_is_zero _ _ 0%nat 0%nat 5%Q Hcore eq_refl eq_refl).
Defined.

(** [saliency_core_range] on the 3x3 image 1..9. *)
Lemma saliency_core_range_witness :
  saliency_core toy_gradients = inr [[0; 0; 0]; [0; 0; 0]; [0; 7 # 8; 8 # 8]]%Q ∧
  (1 < 9)%Q ∧
  ∀ i j y,
    at2 [[0; 0; 0]; [0; 0; 0]; [0; 7 # 8; 8 # 8]]%Q i j = Some y → (0 <= y <= 1)%Q.
Proof.
  assert (saliency_core toy_gradients
          = inr [[0; 0; 0]; [0; 0; 0]; [0; 7 # 8; 8 # 8]]%Q) as Hcore
    by (by vm_compute).
  assert (np_max (boolean_index
                    (np_multiply_mask toy_gradients (circular_mask (shape2 toy_gradients)))
                    (circular_mask (shape2 toy_gradients))) = inr 9%Q) as Hmax
    by (by vm_compute).
  assert (np_min (boolean_index
                    (np_multiply_mask toy_gradients (circular_mask (shape2 toy_gradients)))
                    (circular_mask (shape2 toy_gradients))) = inr 1%Q) as Hmin
    by (by vm_compute).
  split; [exact Hcore|]. split; [reflexivity|].
  exact (saliency_core_range toy_gradients _ 9%Q 1%Q Hcore Hmax Hmin eq_refl).
Defined.

(** [heat_bytes_monotone] on three values: 0.5 becomes 127. *)
Lemma heat_bytes_monotone_witness :
  Forall (Forall (λ x, (0 <= x <= 1)%Q)) [[0; 0.5; 1]]%Q ∧
  at2 (to_uint8_255 [[0; 0.5; 1]]%Q) 0 1 = Some 127%Z.
Proof.
  assert (Forall (Forall (λ x, (0 <= x <= 1)%Q)) [[0; 0.5; 1]]%Q) as Hrange.
  { repeat constructor; by vm_compute. }
  split; [exact Hrange|].
  destruct (heat_bytes_monotone [[0; 0.5; 1]]%Q Hrange 0%nat 1%nat 0.5%Q eq_refl)
    as [Hbyte _].
  exact Hbyte.
Defined.







(** [cvtColor_round_trip] on one blue pixel in BGR order. *)
Lemma cvtColor_round_trip_witness :
  Forall (Forall (λ px, length px = 3)) [[[255; 0; 0]%Z]] ∧
  cv2_cvtColor_swap [[[255; 0; 0]%Z]] = [[[0; 0; 255]%Z]] ∧
  cv2_cvtColor_swap (cv2_cvtColor_swap [[[255; 0; 0]%Z]]) = [[[255; 0; 0]%Z]].
Proof.
  assert (Forall (Forall (λ px, length px = 3)) [[[255; 0; 0]%Z]]) as Hthree.
  { by repeat constructor. }
  split; [exact Hthree|]. split; [reflexivity|].
  destruct (cvtColor_round_trip [[[255; 0; 0]%Z]] Hthree) as [Hback _].
  exact Hback.
Defined.
